(** * gevent.lock: locking primitives of a cooperative runtime

    A shallow embedding of [src/gevent/lock.py]: the recursion-guarded gate
    [_OwnedLock], the gate-bracketed semaphore [_AtomicSemaphore], the no-op
    [DummySemaphore] and the reentrant lock [RLock].

    Python objects are records, methods are state transformers over the
    record of [self], and a call ends in one of three ways: it returns, it
    raises, or the calling OS thread never comes back from it. *)

From stdpp Require Import base option list strings gmap.
From Stdlib Require Import ZArith Lia.

Local Open Scope Z_scope.

(** ** Calls and their outcomes *)

Inductive exn : Type :=
| KeyError
| TypeError
| RuntimeError (msg : string)
| OtherError (name : string).

Inductive outcome (A : Type) : Type :=
| Normal (a : A)
| Raised (e : exn)
| Blocked.
Arguments Normal {A} a.
Arguments Raised {A} e.
Arguments Blocked {A}.

(** A method over an object of type [W]. *)
Definition M (W A : Type) : Type := W -> outcome A * W.

Definition ret {W A} (a : A) : M W A := fun w => (Normal a, w).

Definition raise {W A} (e : exn) : M W A := fun w => (Raised e, w).

Definition bind {W A B} (m : M W A) (k : A -> M W B) : M W B :=
  fun w =>
    match m w with
    | (Normal a, w') => k a w'
    | (Raised e, w') => (Raised e, w')
    | (Blocked, w') => (Blocked, w')
    end.

Notation "x <- m ;; k" := (bind m (fun x => k))
  (at level 200, m at level 99, k at level 200, only parsing).
Notation "m ;;; k" := (bind m (fun _ => k))
  (at level 200, k at level 200, only parsing).

Definition gets {W A} (f : W -> A) : M W A := fun w => (Normal (f w), w).

Definition modify {W} (f : W -> W) : M W unit := fun w => (Normal tt, f w).

(** [try: body finally: fin].  The [finally] suite runs when the body
    returned or raised; an exception of the suite replaces the body's
    outcome.  A body that never comes back never reaches the suite. *)
Definition try_finally {W A} (body : M W A) (fin : M W unit) : M W A :=
  fun w =>
    match body w with
    | (Blocked, w') => (Blocked, w')
    | (o, w') =>
        match fin w' with
        | (Normal _, w'') => (o, w'')
        | (Raised e, w'') => (Raised e, w'')
        | (Blocked, w'') => (Blocked, w'')
        end
    end.

(** The ambient identity of the caller: [_get_ident()] is the identity of
    the OS thread, [getcurrent()] the running greenlet (an object, compared
    with [is]; modelled by its address). *)
Record context : Type := Context { _get_ident : Z; getcurrent : Z }.

(** Python values that the methods below return. *)
Inductive value : Type :=
| VNone
| VBool (b : bool)
| VInt (n : Z).

(** Truth value testing, as in [if rc:]. *)
Definition truthy (v : value) : bool :=
  match v with
  | VNone => false
  | VBool b => b
  | VInt n => negb (n =? 0)
  end.

(** ** The primitive lock of [_thread.allocate_lock()] *)

Module ThreadLock.

(** [true] when locked. *)
Definition t : Type := bool.

Definition allocate_lock : t := false.

(** A blocking acquire of a locked lock does not come back while nobody
    else runs. *)
Definition acquire : M t unit :=
  fun locked => if locked then (Blocked, locked) else (Normal tt, true).

Definition release : M t unit :=
  fun locked =>
    if locked then (Normal tt, false)
    else (Raised (RuntimeError "release unlocked lock"), locked).

End ThreadLock.

(** ** [_OwnedLock] *)

Module OwnedLock.

Record t : Type := Make {
  _owner : option Z;
  _block : ThreadLock.t;
  _locking : gmap Z Z;
  _count : Z
}.

Definition set_owner (o : option Z) (self : t) : t :=
  Make o (_block self) (_locking self) (_count self).
Definition set_block (b : ThreadLock.t) (self : t) : t :=
  Make (_owner self) b (_locking self) (_count self).
Definition set_locking (l : gmap Z Z) (self : t) : t :=
  Make (_owner self) (_block self) l (_count self).
Definition set_count (c : Z) (self : t) : t :=
  Make (_owner self) (_block self) (_locking self) c.

Definition __init__ : t := Make None ThreadLock.allocate_lock ∅ 0.

(** A method of [self._block] run on the field. *)
Definition on_block {A} (m : M ThreadLock.t A) : M t A :=
  fun self =>
    let '(o, b) := m (_block self) in (o, set_block b self).

(** [__begin]: [(me, count)] to proceed, [(None, None)] otherwise. *)
Definition __begin (cx : context) : M t (option Z * option Z) :=
  fun self =>
    let me := _get_ident cx in
    let count :=
      match _locking self !! me with
      | None => 1
      | Some count => count + 1
      end in
    let self := set_locking (<[me := count]> (_locking self)) self in
    (Normal (if bool_decide (count = 0)
             then (Some me, Some count) else (None, None)),
     self).

Definition __end (me : option Z) (count : option Z) : M t unit :=
  match me with
  | None => ret tt
  | Some me =>
      match count with
      | None => raise TypeError
      | Some count =>
          let count := count - 1 in
          if bool_decide (count = 0) then
            fun self =>
              match _locking self !! me with
              | None => (Raised KeyError, self)
              | Some _ =>
                  (Normal tt, set_locking (delete me (_locking self)) self)
              end
          else
            modify (fun self =>
                      set_locking (<[me := count]> (_locking self)) self)
      end
  end.

Definition __enter__ (cx : context) : M t unit :=
  r <- __begin cx ;;
  let '(me, lock_count) := r in
  try_finally
    match me with
    | None => ret tt
    | Some me =>
        owner <- gets _owner ;;
        if bool_decide (owner = Some me) then
          modify (fun self => set_count (_count self + 1) self)
        else
          modify (set_owner (Some me)) ;;;
          on_block ThreadLock.acquire ;;;
          modify (set_count 1)
    end
    (__end me lock_count).

Definition acquire := __enter__.

Definition release (cx : context) : M t unit :=
  r <- __begin cx ;;
  let '(me, lock_count) := r in
  try_finally
    match me with
    | None => ret tt
    | Some _ =>
        c <- gets _count ;;
        let count := c - 1 in
        modify (set_count count) ;;;
        if bool_decide (count = 0) then
          on_block ThreadLock.release ;;;
          modify (set_owner None)
        else ret tt
    end
    (__end me lock_count).

Definition __exit__ (cx : context) : M t unit := release cx.

(** The gate is held by the caller: the caller is the recorded owner and
    the OS mutex is taken. *)
Definition held_by (cx : context) (self : t) : bool :=
  bool_decide (_owner self = Some (_get_ident cx)) && _block self.

(** No entry of [_locking] is below zero.  True of a new gate and kept by
    every method (entries are created at 1 and counted up). *)
Definition counted (self : t) : Prop :=
  forall k c, _locking self !! k = Some c -> 0 <= c.

End OwnedLock.

(** ** The base class [gevent._semaphore.Semaphore]

    [lock.py] imports the base class and overrides [_wait], [release],
    [acquire] and [wait] in [_AtomicSemaphore].  A method body of the base
    class is a term of [method]: it reads and writes the fields of the base
    class and calls [self._wait(timeout)], a virtual call that the subclass
    answers with its own [_wait]. *)

Inductive method (S A : Type) : Type :=
| Return (a : A)
| Raise (e : exn)
| Read (k : S -> method S A)
| Write (f : S -> S) (k : method S A)
| Call_wait (timeout : option Z) (k : value -> method S A).
Arguments Return {S A} a.
Arguments Raise {S A} e.
Arguments Read {S A} k.
Arguments Write {S A} f k.
Arguments Call_wait {S A} timeout k.

(** What [_AtomicSemaphore] inherits: the three public methods it wraps and
    the suspending [_wait] it delegates to. *)
Class SemaphoreBase (S : Type) : Type := {
  super_acquire : bool -> option Z -> method S value;
  super_release : method S value;
  super_wait : option Z -> method S value;
  super__wait : context -> option Z -> M S value
}.

(** A method body run on an instance of the base class itself. *)
Fixpoint run_super {S A} (_wait : option Z -> M S value) (m : method S A)
  : M S A :=
  match m with
  | Return a => ret a
  | Raise e => raise e
  | Read k => fun self => run_super _wait (k self) self
  | Write f k => modify f ;;; run_super _wait k
  | Call_wait timeout k => v <- _wait timeout ;; run_super _wait (k v)
  end.

(** The public methods called on an instance of the base class. *)
Definition base_acquire {S} `{!SemaphoreBase S} (cx : context)
    (blocking : bool) (timeout : option Z) : M S value :=
  run_super (super__wait cx) (super_acquire blocking timeout).

Definition base_release {S} `{!SemaphoreBase S} (cx : context) : M S value :=
  run_super (super__wait cx) super_release.

Definition base_wait {S} `{!SemaphoreBase S} (cx : context)
    (timeout : option Z) : M S value :=
  run_super (super__wait cx) (super_wait timeout).

Module Semaphore.

(** Modelled from the spec: the state of the base counting semaphore of
    [gevent._semaphore], which is not part of [lock.py]: a counter, an
    optional bound and the FIFO queue of waiting tasks. *)
Record t : Type := Make {
  counter : Z;
  bound : option Z;
  waiters : list Z
}.

Definition set_counter (c : Z) (self : t) : t :=
  Make c (bound self) (waiters self).
Definition set_waiters (w : list Z) (self : t) : t :=
  Make (counter self) (bound self) w.

(** Modelled from the spec: [Semaphore(value)], the unbounded variant. *)
Definition __init__ (value : Z) : t := Make value None [].

(** Modelled from the spec: [acquire(blocking, timeout)] of the base
    semaphore; a free slot is taken at once, a non-blocking call fails at
    once, otherwise the [wait_for_slot] sub-step decides. *)
Definition acquire (blocking : bool) (timeout : option Z)
  : method t value :=
  Read (fun self =>
    if 0 <? counter self then
      Write (fun self => set_counter (counter self - 1) self)
            (Return (VBool true))
    else if negb blocking then Return (VBool false)
    else
      Call_wait timeout (fun success =>
        if truthy success then
          Write (fun self => set_counter (counter self - 1) self)
                (Return (VBool true))
        else Return (VBool false))).

(** Modelled from the spec: [release()] of the base semaphore; the counter
    goes up, a declared bound may not be exceeded, and the longest-waiting
    task leaves the queue. *)
Definition release : method t value :=
  Read (fun self =>
    match bound self with
    | Some b =>
        if b <=? counter self then Raise (OtherError "CapacityExceeded")
        else
          Write (fun self =>
                   set_waiters (tail (waiters self))
                     (set_counter (counter self + 1) self))
                (Return VNone)
    | None =>
        Write (fun self =>
                 set_waiters (tail (waiters self))
                   (set_counter (counter self + 1) self))
              (Return VNone)
    end).

(** Modelled from the spec: [wait(timeout)] of the base semaphore; it
    tests availability and leaves the counter alone. *)
Definition wait (timeout : option Z) : method t value :=
  Read (fun self =>
    if 0 <? counter self then Return (VInt (counter self))
    else
      Call_wait timeout (fun _ =>
        Read (fun self => Return (VInt (counter self))))).

(** Modelled from the spec: the suspending [wait_for_slot] sub-step of the
    base semaphore when no other task runs.  With no timeout, or a
    negative one, the task stays parked in the queue; otherwise the timer
    expires and the state is as before. *)
Definition _wait (cx : context) (timeout : option Z) : M t value :=
  match timeout with
  | Some d =>
      if d <? 0 then
        fun self =>
          (Blocked, set_waiters (waiters self ++ [getcurrent cx]) self)
      else ret (VBool false)
  | None =>
      fun self =>
        (Blocked, set_waiters (waiters self ++ [getcurrent cx]) self)
  end.

#[global] Instance base : SemaphoreBase t := {
  super_acquire := acquire;
  super_release := release;
  super_wait := wait;
  super__wait := _wait
}.

End Semaphore.

(** ** [_AtomicSemaphore] *)

(** What an observer of the gate sees while a method runs: every write to
    the counter and waiter state and every entry into the suspending
    sub-step, each with whether the caller holds the gate at that time. *)
Inductive event : Type :=
| Mutated (gate_held : bool)
| Suspended (gate_held : bool).

Module AtomicSemaphore.

Section with_base.
Context {S : Type} `{!SemaphoreBase S}.

(** [_lock_lock] is the slot of the subclass, [super] the fields of the
    base class.  [observed] is not a slot: it is the observer's record
    of the events so far, latest first. *)
Record t : Type := Make {
  _lock_lock : OwnedLock.t;
  super : S;
  observed : list event
}.

Definition __init__ (base_init : S) : t :=
  Make OwnedLock.__init__ base_init [].

(** A method of [self._lock_lock] run on the slot. *)
Definition on_lock {A} (m : M OwnedLock.t A) : M t A :=
  fun self =>
    let '(o, g) := m (_lock_lock self) in
    (o, Make g (super self) (observed self)).

(** A method of the base class run on the inherited fields. *)
Definition on_super {A} (m : M S A) : M t A :=
  fun self =>
    let '(o, s) := m (super self) in
    (o, Make (_lock_lock self) s (observed self)).

Definition observe (cx : context) (e : bool -> event) : M t unit :=
  modify (fun self =>
    Make (_lock_lock self) (super self)
         (e (OwnedLock.held_by cx (_lock_lock self)) :: observed self)).

(** [with self._lock_lock: body]. *)
Definition with_lock {A} (cx : context) (body : M t A) : M t A :=
  on_lock (OwnedLock.__enter__ cx) ;;;
  try_finally body (on_lock (OwnedLock.__exit__ cx)).

Definition _wait (cx : context) (timeout : option Z) : M t value :=
  on_lock (OwnedLock.release cx) ;;;
  try_finally
    (observe cx Suspended ;;; on_super (super__wait cx timeout))
    (on_lock (OwnedLock.acquire cx)).

(** A method body of the base class run on an [_AtomicSemaphore]:
    [self._wait] is the override above. *)
Fixpoint run {A} (cx : context) (m : method S A) : M t A :=
  match m with
  | Return a => ret a
  | Raise e => raise e
  | Read k => fun self => run cx (k (super self)) self
  | Write f k =>
      observe cx Mutated ;;; on_super (modify f) ;;; run cx k
  | Call_wait timeout k => v <- _wait cx timeout ;; run cx (k v)
  end.

Definition release (cx : context) : M t value :=
  with_lock cx (run cx super_release).

Definition acquire (cx : context) (blocking : bool) (timeout : option Z)
  : M t value :=
  with_lock cx (run cx (super_acquire blocking timeout)).

Definition _py3k_acquire := acquire.

Definition wait (cx : context) (timeout : option Z) : M t value :=
  with_lock cx (run cx (super_wait timeout)).

End with_base.

Arguments t S : clear implicits.

End AtomicSemaphore.


(** ** The semaphore interface used by [RLock]

    [RLock] stores [Semaphore(1)] in [_block] and calls only [acquire] and
    [release] on it.  [Semaphore] names the base class or, under
    [PURE_PYTHON], [_AtomicSemaphore]. *)
Class SemaphoreAPI (B : Type) : Type := {
  sem_acquire : context -> bool -> option Z -> M B value;
  sem_release : context -> M B value
}.

#[global] Instance Semaphore_api : SemaphoreAPI Semaphore.t := {
  sem_acquire := base_acquire;
  sem_release := base_release
}.

#[global] Instance AtomicSemaphore_api {S} `{!SemaphoreBase S}
  : SemaphoreAPI (AtomicSemaphore.t S) := {
  sem_acquire := AtomicSemaphore.acquire;
  sem_release := AtomicSemaphore.release
}.

(** ** [DummySemaphore] *)

Module DummySemaphore.

(** The class declares no attribute: an instance carries no state. *)
Record t : Type := Make { }.

Definition __init__ (value : option Z) : t := Make.

Definition locked : M t value := ret (VBool false).

Definition ready : M t value := ret (VBool true).

Definition release : M t value := ret VNone.

Definition rawlink (callback : Z) : M t value := ret VNone.

Definition unlink (callback : Z) : M t value := ret VNone.

Definition wait (timeout : option Z) : M t value := ret (VInt 1).

Definition acquire (blocking : bool) (timeout : option Z) : M t value :=
  ret (VBool true).

Definition __enter__ : M t value := ret VNone.

Definition __exit__ : M t value := ret VNone.

#[global] Instance api : SemaphoreAPI t := {
  sem_acquire _ := acquire;
  sem_release _ := release
}.

End DummySemaphore.

(** ** [RLock] *)

Module RLock.

Section with_semaphore.
Context {B : Type} `{!SemaphoreAPI B}.

Record t : Type := Make {
  _block : B;
  _owner : option Z;
  _count : Z
}.

Definition set_block (b : B) (self : t) : t :=
  Make b (_owner self) (_count self).
Definition set_owner (o : option Z) (self : t) : t :=
  Make (_block self) o (_count self).
Definition set_count (c : Z) (self : t) : t :=
  Make (_block self) (_owner self) c.

(** [Semaphore] is the constructor bound to the name at import time. *)
Definition __init__ (Semaphore : Z -> B) : t := Make (Semaphore 1) None 0.

(** A method of [self._block] run on the slot. *)
Definition on_block {A} (m : M B A) : M t A :=
  fun self =>
    let '(o, b) := m (_block self) in (o, set_block b self).

Definition acquire (cx : context) (blocking : bool) (timeout : option Z)
  : M t value :=
  let me := getcurrent cx in
  owner <- gets _owner ;;
  if bool_decide (owner = Some me) then
    modify (fun self => set_count (_count self + 1) self) ;;;
    ret (VInt 1)
  else
    rc <- on_block (sem_acquire cx blocking timeout) ;;
    (if truthy rc then
       modify (set_owner (Some me)) ;;;
       modify (set_count 1)
     else ret tt) ;;;
    ret rc.

Definition __enter__ (cx : context) : M t value := acquire cx true None.

Definition release (cx : context) : M t unit :=
  owner <- gets _owner ;;
  if bool_decide (owner <> Some (getcurrent cx)) then
    raise (RuntimeError "cannot release un-acquired lock")
  else
    c <- gets _count ;;
    let count := c - 1 in
    modify (set_count count) ;;;
    if bool_decide (count = 0) then
      modify (set_owner None) ;;;
      _ <- on_block (sem_release cx) ;;
      ret tt
    else ret tt.

Definition __exit__ (cx : context) : M t unit := release cx.

Definition _acquire_restore (cx : context) (count_owner : Z * option Z)
  : M t unit :=
  let '(count, owner) := count_owner in
  _ <- on_block (sem_acquire cx true None) ;;
  modify (set_count count) ;;;
  modify (set_owner owner).

Definition _release_save (cx : context) : M t (Z * option Z) :=
  count <- gets _count ;;
  modify (set_count 0) ;;;
  owner <- gets _owner ;;
  modify (set_owner None) ;;;
  _ <- on_block (sem_release cx) ;;
  ret (count, owner).

Definition _is_owned (cx : context) : M t bool :=
  owner <- gets _owner ;;
  ret (bool_decide (owner = Some (getcurrent cx))).

(** The lock is free, or one task owns it a positive number of times. *)
Definition consistent (self : t) : Prop :=
  (_owner self = None /\ _count self = 0) \/
  (exists o, _owner self = Some o /\ 0 < _count self).

End with_semaphore.

Arguments t B : clear implicits.

End RLock.


(** ** Auxiliary definitions for the statements below *)

(** The gate after a bracketed method that was told to skip its work: only
    the caller's entry of [_locking] moved, up by one. *)
Definition skipped (cx : context) (self : OwnedLock.t) : OwnedLock.t :=
  OwnedLock.set_locking
    (<[_get_ident cx :=
         match OwnedLock._locking self !! _get_ident cx with
         | None => 1
         | Some count => count + 1
         end]> (OwnedLock._locking self))
    self.

(** Two states of one gate that agree on owner, OS mutex and depth. *)
Definition same_hold (g g' : OwnedLock.t) : Prop :=
  OwnedLock._owner g' = OwnedLock._owner g /\
  OwnedLock._block g' = OwnedLock._block g /\
  OwnedLock._count g' = OwnedLock._count g.

(** The flag an observer attached to an event. *)
Definition gate_held (e : event) : bool :=
  match e with
  | Mutated h => h
  | Suspended h => h
  end.

(** [m] called [n] times in a row: the outcomes in call order, and the
    object after the last call. *)
Fixpoint repeat_call {W A} (m : M W A) (n : nat) (w : W)
  : list (outcome A) * W :=
  match n with
  | O => ([], w)
  | S n' =>
      let '(o, w') := m w in
      let '(os, w'') := repeat_call m n' w' in
      (o :: os, w'')
  end.

(** What a call on an [_AtomicSemaphore] shows of the base class: the
    outcome and the inherited fields. *)
Definition base_view {S A} (r : outcome A * AtomicSemaphore.t S)
  : outcome A * S :=
  (fst r, AtomicSemaphore.super (snd r)).

(** During the call that took [self] to [self'], the observer recorded only
    events at which the caller did not hold the gate, and the caller does
    not hold it afterwards. *)
Definition never_held {S} (cx : context) (self self' : AtomicSemaphore.t S)
  : Prop :=
  exists new,
    AtomicSemaphore.observed self' = new ++ AtomicSemaphore.observed self /\
    Forall (fun e => gate_held e = false) new /\
    OwnedLock.held_by cx (AtomicSemaphore._lock_lock self') = false.

(** A call that found the gate idle and left it idle: from [self] it did to
    the base fields what [r] says, the hold of the gate is as it was, and
    every event recorded carries the flag of the gate at entry. *)
Definition idle_run {S A} (cx : context) (self : AtomicSemaphore.t S)
    (r : outcome A * S) (res : outcome A * AtomicSemaphore.t S) : Prop :=
  exists g' new,
    res = (fst r,
           AtomicSemaphore.Make g' (snd r)
             (new ++ AtomicSemaphore.observed self)) /\
    OwnedLock.counted g' /\
    same_hold (AtomicSemaphore._lock_lock self) g' /\
    Forall (fun e =>
              gate_held e =
              OwnedLock.held_by cx (AtomicSemaphore._lock_lock self)) new.

(** The outcome of a call whose result is dropped. *)
Definition discard {A} (o : outcome A) : outcome unit :=
  match o with
  | Normal _ => Normal tt
  | Raised e => Raised e
  | Blocked => Blocked
  end.

(** The call returned a true value. *)
Definition succeeded (o : outcome value) : Prop :=
  exists v, o = Normal v /\ truthy v = true.

(** The two bindings of the name [Semaphore] in [lock.py]. *)
Definition new_Semaphore (value : Z) : Semaphore.t := Semaphore.__init__ value.

Definition new_AtomicSemaphore (value : Z) : AtomicSemaphore.t Semaphore.t :=
  AtomicSemaphore.__init__ (Semaphore.__init__ value).

(** ** Callers

    Calls made one after another on one object, each by the caller it names;
    a caller carries on after a call that raised. *)
Fixpoint run_calls {W C A} (call : C -> M W A) (cs : list C) (w : W)
  : list (outcome A) * W :=
  match cs with
  | [] => ([], w)
  | c :: cs' =>
      let '(o, w') := call c w in
      let '(os, w'') := run_calls call cs' w' in
      (o :: os, w'')
  end.

(** The two bracketed methods of the gate. *)
Inductive gate_call : Type :=
| Gate_enter
| Gate_release.

Definition gate_method (cx : context) (c : gate_call) : M OwnedLock.t unit :=
  match c with
  | Gate_enter => OwnedLock.__enter__ cx
  | Gate_release => OwnedLock.release cx
  end.

(** The gate with its owner, OS mutex and depth replaced. *)
Definition with_hold (o : option Z) (b : bool) (c : Z) (g : OwnedLock.t)
  : OwnedLock.t :=
  OwnedLock.Make o b (OwnedLock._locking g) c.

(** The gate free, and the gate held once by the caller. *)
Definition idle_gate (g : OwnedLock.t) : OwnedLock.t :=
  with_hold None false 0 g.

Definition held_gate (cx : context) (g : OwnedLock.t) : OwnedLock.t :=
  with_hold (Some (_get_ident cx)) true 1 g.



Definition is_blocked {A} (o : outcome A) : bool :=
  match o with
  | Blocked => true
  | _ => false
  end.

(** [with mgr: body], for a manager given by its [__enter__] and an
    [__exit__] that returns [None], so that an exception of the body is
    raised again after it. *)
Definition with_statement {W E X A} (enter : M W E) (exit : M W X)
    (body : M W A) : M W A :=
  enter ;;; try_finally body (exit ;;; ret tt).

(** The semaphore interface as the base class implements it. *)
Definition base_api {S} `{!SemaphoreBase S} : SemaphoreAPI S := {|
  sem_acquire := base_acquire;
  sem_release := base_release
|}.

(** The calls of one task on a lock. *)
Inductive task_call : Type :=
| Do_acquire (blocking : bool) (timeout : option Z)
| Do_release.

Definition task_method {B} `{!SemaphoreAPI B} (cx : context) (c : task_call)
  : M (RLock.t B) value :=
  match c with
  | Do_acquire blocking timeout => RLock.acquire cx blocking timeout
  | Do_release => RLock.release cx ;;; ret VNone
  end.

(** The acquires of a history that no release has matched yet, counted from
    [n]; a release at 0 matches nothing. *)
Fixpoint unmatched (n : Z) (cs : list task_call) : Z :=
  match cs with
  | [] => n
  | Do_acquire _ _ :: cs' => unmatched (n + 1) cs'
  | Do_release :: cs' => unmatched (if 0 <? n then n - 1 else n) cs'
  end.

(** Every method of [RLock], with the caller that makes the call. *)
Inductive rlock_call : Type :=
| Call_acquire (blocking : bool) (timeout : option Z)
| Call_release
| Call_release_save
| Call_acquire_restore (count : Z) (owner : option Z)
| Call_is_owned.

Inductive rlock_result : Type :=
| Result_value (v : value)
| Result_none
| Result_saved (count : Z) (owner : option Z)
| Result_bool (b : bool).

Definition rlock_method {B} `{!SemaphoreAPI B} (c : context * rlock_call)
  : M (RLock.t B) rlock_result :=
  let cx := fst c in
  match snd c with
  | Call_acquire blocking timeout =>
      v <- RLock.acquire cx blocking timeout ;; ret (Result_value v)
  | Call_release => RLock.release cx ;;; ret Result_none
  | Call_release_save =>
      p <- RLock._release_save cx ;; ret (Result_saved (fst p) (snd p))
  | Call_acquire_restore count owner =>
      RLock._acquire_restore cx (count, owner) ;;; ret Result_none
  | Call_is_owned => b <- RLock._is_owned cx ;; ret (Result_bool b)
  end.

(** A lock over [_AtomicSemaphore] and a lock over the base class that show
    the same owner, depth and semaphore fields. *)
Definition same_lock {S} (la : RLock.t (AtomicSemaphore.t S))
    (lb : RLock.t S) : Prop :=
  RLock._owner la = RLock._owner lb /\
  RLock._count la = RLock._count lb /\
  AtomicSemaphore.super (RLock._block la) = RLock._block lb /\
  OwnedLock.counted (AtomicSemaphore._lock_lock (RLock._block la)).

(** A lock over [Semaphore(1)] of the pure-Python binding in a state its
    own methods produce: free with the slot available, or owned with the
    slot taken. *)
Definition in_use (owner : option Z) (depth : Z)
    (self : RLock.t (AtomicSemaphore.t Semaphore.t)) : Prop :=
  RLock._owner self = owner /\
  RLock._count self = depth /\
  Semaphore.bound (AtomicSemaphore.super (RLock._block self)) = None /\
  OwnedLock.counted (AtomicSemaphore._lock_lock (RLock._block self)) /\
  ((owner = None /\ depth = 0 /\
    Semaphore.counter (AtomicSemaphore.super (RLock._block self)) = 1) \/
   (is_Some owner /\ 0 < depth /\
    Semaphore.counter (AtomicSemaphore.super (RLock._block self)) = 0)).

(** The owner of a lock that task [cx] holds [n] times. *)
Definition owner_at (cx : context) (n : Z) : option Z :=
  if 0 <? n then Some (getcurrent cx) else None.

(** The outcome of a call with its result mapped. *)
Definition outcome_map {A A'} (f : A -> A') (o : outcome A) : outcome A' :=
  match o with
  | Normal a => Normal (f a)
  | Raised e => Raised e
  | Blocked => Blocked
  end.

(** The use a condition variable makes of a lock that task [a] holds: [a]
    gives the lock up with [_release_save], task [b] takes and releases it,
    and [a] takes it back with [_acquire_restore]. *)
Definition wait_protocol {B} `{!SemaphoreAPI B} (a b : context)
  : M (RLock.t B) ((Z * option Z) * value) :=
  saved <- RLock._release_save a ;;
  rc <- RLock.acquire b true None ;;
  RLock.release b ;;;
  RLock._acquire_restore a saved ;;;
  ret (saved, rc).

(** * Properties *)

(** ** The gate *)

Section gate_facts.
Variable cx : context.

Lemma counted_init : OwnedLock.counted OwnedLock.__init__.
Proof. intros k c H. cbn in H. by rewrite lookup_empty in H. Qed.

Lemma skipped_counted self :
  OwnedLock.counted self -> OwnedLock.counted (skipped cx self).
Proof.
  intros Hc k c. unfold skipped. cbn.
  destruct (decide (_get_ident cx = k)) as [<-|Hne].
  - rewrite lookup_insert_eq. intros [= <-].
    destruct (OwnedLock._locking self !! _get_ident cx) as [c0|] eqn:E;
      [apply Hc in E|]; lia.
  - rewrite lookup_insert_ne by done. apply Hc.
Qed.

Lemma skipped_same_hold self : same_hold self (skipped cx self).
Proof. by destruct self. Qed.

Lemma same_hold_trans g1 g2 g3 :
  same_hold g1 g2 -> same_hold g2 g3 -> same_hold g1 g3.
Proof. unfold same_hold. intros (?&?&?) (?&?&?). repeat split; congruence. Qed.

Lemma same_hold_held_by g g' :
  same_hold g g' -> OwnedLock.held_by cx g' = OwnedLock.held_by cx g.
Proof. intros (Ho&Hb&_). unfold OwnedLock.held_by. by rewrite Ho, Hb. Qed.

(** On a gate whose entries are not negative, [__begin] always answers
    with the sentinel. *)
Lemma begin_counted self :
  OwnedLock.counted self ->
  OwnedLock.__begin cx self = (Normal (None, None), skipped cx self).
Proof.
  intros Hc. unfold OwnedLock.__begin, skipped.
  destruct (OwnedLock._locking self !! _get_ident cx) as [c|] eqn:E.
  - apply Hc in E. rewrite bool_decide_eq_false_2 by lia. done.
  - done.
Qed.

Lemma enter_counted self :
  OwnedLock.counted self ->
  OwnedLock.__enter__ cx self = (Normal tt, skipped cx self).
Proof.
  intros Hc. unfold OwnedLock.__enter__, bind.
  by rewrite begin_counted.
Qed.

Lemma release_counted self :
  OwnedLock.counted self ->
  OwnedLock.release cx self = (Normal tt, skipped cx self).
Proof.
  intros Hc. unfold OwnedLock.release, bind.
  by rewrite begin_counted.
Qed.

(** [__begin] lets the caller proceed exactly when its recorded entry
    is [-1]. *)
Lemma begin_proceeds_iff self :
  (exists me count, fst (OwnedLock.__begin cx self) = Normal (Some me, count))
  <-> OwnedLock._locking self !! _get_ident cx = Some (-1).
Proof.
  unfold OwnedLock.__begin. cbn.
  destruct (OwnedLock._locking self !! _get_ident cx) as [c|] eqn:E; cbn.
  - case_bool_decide as Hz.
    + split; [intros _; f_equal; lia | eauto].
    + split; [by intros (?&?&[=]) | intros [=]; lia].
  - split; [by intros (?&?&[=]) | done].
Qed.

End gate_facts.

(** C1 (as the code has it).  A first, non-nested call, with no re-entry
    count recorded for the caller, gets the sentinel [(None, None)] from
    [__begin], not the answer [(me, count)] to proceed: the count is set to
    1 and [not count] is false. *)
Theorem begin_first_call_is_sentinel (cx : context) (self : OwnedLock.t) :
  OwnedLock._locking self !! _get_ident cx = None ->
  OwnedLock.__begin cx self =
    (Normal (None, None),
     OwnedLock.set_locking
       (<[_get_ident cx := 1]> (OwnedLock._locking self)) self).
Proof.
  intros Hnone. unfold OwnedLock.__begin. rewrite Hnone.
  by rewrite bool_decide_eq_false_2.
Qed.

Lemma begin_first_call_is_sentinel_witness :
  OwnedLock._locking OwnedLock.__init__ !! 7 = None /\
  OwnedLock.__begin (Context 7 100) OwnedLock.__init__ =
    (Normal (None, None), OwnedLock.Make None false {[7 := 1]} 0).
Proof.
  split.
  - reflexivity.
  - exact (begin_first_call_is_sentinel (Context 7 100) OwnedLock.__init__
             eq_refl).
Defined.

(** C2 (as the code has it).  A non-nested [__enter__] by a context with no
    recorded re-entry count returns without doing its work: the owner, the
    OS mutex and the depth are as before, and only the caller's entry of
    [_locking] is left behind, at 1. *)
Theorem enter_first_call_skips_work (cx : context) (self : OwnedLock.t) :
  OwnedLock._locking self !! _get_ident cx = None ->
  OwnedLock.__enter__ cx self =
    (Normal tt,
     OwnedLock.set_locking
       (<[_get_ident cx := 1]> (OwnedLock._locking self)) self).
Proof.
  intros Hnone. unfold OwnedLock.__enter__, bind, OwnedLock.__begin.
  rewrite Hnone. by rewrite bool_decide_eq_false_2.
Qed.

Lemma enter_first_call_skips_work_witness :
  OwnedLock._locking OwnedLock.__init__ !! 7 = None /\
  OwnedLock.__enter__ (Context 7 100) OwnedLock.__init__ =
    (Normal tt, OwnedLock.Make None false {[7 := 1]} 0).
Proof.
  split.
  - reflexivity.
  - exact (enter_first_call_skips_work (Context 7 100) OwnedLock.__init__
             eq_refl).
Defined.

(** The matching [release] skips its work in the same way, so a bracket
    [enter(); exit()] by one context changes nothing but [_locking]. *)
Lemma enter_release_pair cx self :
  OwnedLock.counted self ->
  bind (OwnedLock.__enter__ cx) (fun _ => OwnedLock.release cx) self =
    (Normal tt, skipped cx (skipped cx self)).
Proof.
  intros Hc. unfold bind. rewrite enter_counted by done.
  rewrite release_counted; [done | by apply skipped_counted].
Qed.

(** The work that the bracketed methods skip is there and right: started
    from the one recorded count that makes [__begin] answer [(me, 0)], a
    first [__enter__] takes the OS mutex and records the caller as owner at
    depth 1, and the matching [release] undoes it. *)
Lemma enter_when_begin_proceeds cx self :
  OwnedLock._locking self !! _get_ident cx = Some (-1) ->
  OwnedLock._owner self <> Some (_get_ident cx) ->
  OwnedLock._block self = false ->
  OwnedLock.__enter__ cx self =
    (Normal tt,
     OwnedLock.Make (Some (_get_ident cx)) true (OwnedLock._locking self) 1).
Proof.
  intros Hl Hown Hfree. destruct self as [o b l c]. simpl in *. subst b.
  unfold OwnedLock.__enter__, bind, OwnedLock.__begin. simpl. rewrite Hl.
  simpl. unfold try_finally, bind, gets, modify, OwnedLock.on_block. simpl.
  rewrite bool_decide_eq_false_2 by done. simpl.
  unfold OwnedLock.set_locking. simpl.
  rewrite (insert_insert_eq (M:=gmap Z)). by rewrite insert_id.
Qed.

Lemma release_when_begin_proceeds cx self :
  OwnedLock._locking self !! _get_ident cx = Some (-1) ->
  OwnedLock._block self = true ->
  OwnedLock._count self = 1 ->
  OwnedLock.release cx self =
    (Normal tt, OwnedLock.Make None false (OwnedLock._locking self) 0).
Proof.
  intros Hl Hb Hc. destruct self as [o b l c]. simpl in *. subst b c.
  unfold OwnedLock.release, bind, OwnedLock.__begin. simpl. rewrite Hl.
  simpl. unfold try_finally, bind, gets, modify, OwnedLock.on_block. simpl.
  unfold OwnedLock.set_locking. simpl.
  rewrite (insert_insert_eq (M:=gmap Z)). by rewrite insert_id.
Qed.

(** ** The gate-bracketed semaphore *)

Section atomic_facts.
Context {S : Type} `{!SemaphoreBase S}.
Variable cx : context.

Lemma on_lock_enter (self : AtomicSemaphore.t S) :
  OwnedLock.counted (AtomicSemaphore._lock_lock self) ->
  AtomicSemaphore.on_lock (OwnedLock.__enter__ cx) self =
    (Normal tt,
     AtomicSemaphore.Make (skipped cx (AtomicSemaphore._lock_lock self))
       (AtomicSemaphore.super self) (AtomicSemaphore.observed self)).
Proof.
  intros Hc. unfold AtomicSemaphore.on_lock. by rewrite enter_counted.
Qed.

Lemma on_lock_release (self : AtomicSemaphore.t S) :
  OwnedLock.counted (AtomicSemaphore._lock_lock self) ->
  AtomicSemaphore.on_lock (OwnedLock.release cx) self =
    (Normal tt,
     AtomicSemaphore.Make (skipped cx (AtomicSemaphore._lock_lock self))
       (AtomicSemaphore.super self) (AtomicSemaphore.observed self)).
Proof.
  intros Hc. unfold AtomicSemaphore.on_lock. by rewrite release_counted.
Qed.

Lemma wait_idle timeout (self : AtomicSemaphore.t S) :
  OwnedLock.counted (AtomicSemaphore._lock_lock self) ->
  idle_run cx self (super__wait cx timeout (AtomicSemaphore.super self))
    (AtomicSemaphore._wait cx timeout self).
Proof.
  intros Hc. destruct self as [g s obs]; simpl in Hc.
  pose proof (skipped_counted cx g Hc) as Hc1.
  pose proof (skipped_counted cx _ Hc1) as Hc2.
  pose proof (skipped_same_hold cx g) as Hs1.
  pose proof (same_hold_trans _ _ _ Hs1 (skipped_same_hold cx _)) as Hs2.
  unfold AtomicSemaphore._wait, bind.
  rewrite on_lock_release by done.
  unfold try_finally, bind, AtomicSemaphore.observe, modify,
    AtomicSemaphore.on_super, OwnedLock.acquire.
  simpl AtomicSemaphore.super. simpl AtomicSemaphore._lock_lock.
  simpl AtomicSemaphore.observed.
  rewrite (same_hold_held_by cx _ _ Hs1).
  destruct (super__wait cx timeout s) as [[v|e|] s'] eqn:E.
  - rewrite on_lock_enter by done.
    exists (skipped cx (skipped cx g)), [Suspended (OwnedLock.held_by cx g)].
    repeat split; try done; try apply Hs2. by constructor.
  - rewrite on_lock_enter by done.
    exists (skipped cx (skipped cx g)), [Suspended (OwnedLock.held_by cx g)].
    repeat split; try done; try apply Hs2. by constructor.
  - exists (skipped cx g), [Suspended (OwnedLock.held_by cx g)].
    repeat split; try done; try apply Hs1. by constructor.
Qed.

Lemma run_idle {A} (m : method S A) (self : AtomicSemaphore.t S) :
  OwnedLock.counted (AtomicSemaphore._lock_lock self) ->
  idle_run cx self
    (run_super (super__wait cx) m (AtomicSemaphore.super self))
    (AtomicSemaphore.run cx m self).
Proof.
  revert self. induction m as [a|e|k IH|f k IH|timeout k IH]; intros self Hc.
  - destruct self as [g s obs]. exists g, []. by repeat split.
  - destruct self as [g s obs]. exists g, []. by repeat split.
  - simpl. by apply IH.
  - destruct self as [g s obs]. simpl in Hc. simpl.
    unfold bind, AtomicSemaphore.observe, AtomicSemaphore.on_super, modify.
    simpl.
    destruct (IH (AtomicSemaphore.Make g (f s)
                    (Mutated (OwnedLock.held_by cx g) :: obs)) Hc)
      as (g' & new & -> & Hc' & Hs & Hf).
    exists g', (new ++ [Mutated (OwnedLock.held_by cx g)]).
    simpl. rewrite <- app_assoc. repeat split; try done; try apply Hs.
    apply Forall_app. split; [done | by constructor].
  - simpl. unfold bind.
    destruct (wait_idle timeout self Hc) as (g1 & new1 & -> & Hc1 & Hs1 & Hf1).
    destruct (super__wait cx timeout (AtomicSemaphore.super self))
      as [[v|e|] s'] eqn:E; simpl.
    + destruct (IH v (AtomicSemaphore.Make g1 s'
                        (new1 ++ AtomicSemaphore.observed self)) Hc1)
        as (g2 & new2 & -> & Hc2 & Hs2 & Hf2).
      simpl in *. exists g2, (new2 ++ new1). rewrite <- app_assoc.
      repeat split; try done; try apply (same_hold_trans _ _ _ Hs1 Hs2).
      apply Forall_app. split; [|done].
      by rewrite (same_hold_held_by cx _ _ Hs1) in Hf2.
    + by exists g1, new1.
    + by exists g1, new1.
Qed.

Lemma with_lock_idle {A} (m : method S A) (self : AtomicSemaphore.t S) :
  OwnedLock.counted (AtomicSemaphore._lock_lock self) ->
  idle_run cx self
    (run_super (super__wait cx) m (AtomicSemaphore.super self))
    (AtomicSemaphore.with_lock cx (AtomicSemaphore.run cx m) self).
Proof.
  intros Hc. destruct self as [g s obs]; simpl in Hc.
  pose proof (skipped_counted cx g Hc) as Hc1.
  pose proof (skipped_same_hold cx g) as Hs1.
  unfold AtomicSemaphore.with_lock, bind.
  rewrite on_lock_enter by done.
  destruct (run_idle m (AtomicSemaphore.Make (skipped cx g) s obs) Hc1)
    as (g2 & new & Hrun & Hc2 & Hs2 & Hf).
  simpl in Hrun, Hs2, Hf. simpl AtomicSemaphore.super.
  rewrite (same_hold_held_by cx _ _ Hs1) in Hf.
  unfold try_finally. simpl AtomicSemaphore._lock_lock.
  simpl AtomicSemaphore.observed. rewrite Hrun.
  unfold OwnedLock.__exit__.
  pose proof (same_hold_trans _ _ _ Hs1 Hs2) as Hs3.
  destruct (run_super (super__wait cx) m s) as [[v|e|] s'] eqn:E; simpl fst.
  - rewrite on_lock_release by done.
    exists (skipped cx g2), new.
    repeat split; try done; try apply (skipped_counted cx _ Hc2);
      apply (same_hold_trans _ _ _ Hs3 (skipped_same_hold cx g2)).
  - rewrite on_lock_release by done.
    exists (skipped cx g2), new.
    repeat split; try done; try apply (skipped_counted cx _ Hc2);
      apply (same_hold_trans _ _ _ Hs3 (skipped_same_hold cx g2)).
  - by exists g2, new.
Qed.

Lemma idle_run_base_view {A} (self : AtomicSemaphore.t S)
    (r : outcome A * S) res :
  idle_run cx self r res -> base_view res = r.
Proof. intros (g' & new & -> & _). by destruct r. Qed.

Lemma idle_run_never_held {A} (self : AtomicSemaphore.t S)
    (r : outcome A * S) res :
  OwnedLock.held_by cx (AtomicSemaphore._lock_lock self) = false ->
  idle_run cx self r res -> never_held cx self (snd res).
Proof.
  intros Hfree (g' & new & -> & _ & Hs & Hf). exists new. simpl.
  rewrite Hfree in Hf. by rewrite (same_hold_held_by cx _ _ Hs).
Qed.

Lemma idle_run_counted {A} (self : AtomicSemaphore.t S)
    (r : outcome A * S) res :
  idle_run cx self r res ->
  OwnedLock.counted (AtomicSemaphore._lock_lock (snd res)).
Proof. by intros (g' & new & -> & ? & _). Qed.

End atomic_facts.

(** The hypotheses of the two theorems below describe every gate a single
    thread can reach from a new semaphore: they hold of a new one and each
    public method keeps them. *)
Lemma new_atomic_semaphore_idle {S} (cx : context) (base_init : S) :
  OwnedLock.counted
    (AtomicSemaphore._lock_lock (AtomicSemaphore.__init__ base_init)) /\
  OwnedLock.held_by cx
    (AtomicSemaphore._lock_lock (AtomicSemaphore.__init__ base_init)) = false.
Proof. split; [apply counted_init | done]. Qed.

Lemma atomic_methods_keep_counted {S} `{!SemaphoreBase S} (cx : context)
    (blocking : bool) (timeout : option Z) (self : AtomicSemaphore.t S) :
  OwnedLock.counted (AtomicSemaphore._lock_lock self) ->
  OwnedLock.counted
    (AtomicSemaphore._lock_lock
       (snd (AtomicSemaphore.acquire cx blocking timeout self))) /\
  OwnedLock.counted
    (AtomicSemaphore._lock_lock (snd (AtomicSemaphore.wait cx timeout self))) /\
  OwnedLock.counted
    (AtomicSemaphore._lock_lock (snd (AtomicSemaphore.release cx self))).
Proof.
  intros Hc. repeat split;
    eapply idle_run_counted, with_lock_idle, Hc.
Qed.

(** C3 (as the code has it).  On a gate as a single thread finds it, none of
    [acquire], [wait] and [release] of [_AtomicSemaphore] holds the gate at
    any write to the counter and waiter state, nor at the suspending
    sub-step, nor on return: the brackets are entered and left, but each
    entry skips its work. *)
Theorem atomic_methods_never_hold_gate {S} `{!SemaphoreBase S}
    (cx : context) (blocking : bool) (timeout : option Z)
    (self : AtomicSemaphore.t S) :
  OwnedLock.counted (AtomicSemaphore._lock_lock self) ->
  OwnedLock.held_by cx (AtomicSemaphore._lock_lock self) = false ->
  never_held cx self (snd (AtomicSemaphore.acquire cx blocking timeout self)) /\
  never_held cx self (snd (AtomicSemaphore.wait cx timeout self)) /\
  never_held cx self (snd (AtomicSemaphore.release cx self)).
Proof.
  intros Hc Hfree. repeat split;
    eapply idle_run_never_held, with_lock_idle, Hc; exact Hfree.
Qed.

(** At a new [Semaphore(1)] of the pure-Python binding, [acquire()] takes
    the slot and the one write to the counter is observed with the gate not
    held. *)
Lemma atomic_methods_never_hold_gate_witness :
  AtomicSemaphore.observed
    (snd (AtomicSemaphore.acquire (Context 7 100) true None
            (new_AtomicSemaphore 1))) = [Mutated false] /\
  never_held (Context 7 100) (new_AtomicSemaphore 1)
    (snd (AtomicSemaphore.acquire (Context 7 100) true None
            (new_AtomicSemaphore 1))).
Proof.
  split.
  - reflexivity.
  - exact (proj1 (atomic_methods_never_hold_gate (Context 7 100) true None
                    (new_AtomicSemaphore 1) counted_init eq_refl)).
Defined.

(** C10.  Called by one thread on a gate as that thread finds it, each
    public method of [_AtomicSemaphore] ends as the method of the base class
    does on the inherited fields, with the same result or exception, and
    leaves in them what the base class leaves. *)
Theorem atomic_semaphore_refines_base {S} `{!SemaphoreBase S}
    (cx : context) (blocking : bool) (timeout : option Z)
    (self : AtomicSemaphore.t S) :
  OwnedLock.counted (AtomicSemaphore._lock_lock self) ->
  base_view (AtomicSemaphore.acquire cx blocking timeout self) =
    base_acquire cx blocking timeout (AtomicSemaphore.super self) /\
  base_view (AtomicSemaphore.wait cx timeout self) =
    base_wait cx timeout (AtomicSemaphore.super self) /\
  base_view (AtomicSemaphore.release cx self) =
    base_release cx (AtomicSemaphore.super self).
Proof.
  intros Hc. repeat split;
    eapply idle_run_base_view, with_lock_idle, Hc.
Qed.

Lemma atomic_semaphore_refines_base_witness :
  base_view (AtomicSemaphore.acquire (Context 7 100) true None
               (new_AtomicSemaphore 1)) =
    (Normal (VBool true), Semaphore.Make 0 None []) /\
  base_view (AtomicSemaphore.wait (Context 7 100) None
               (new_AtomicSemaphore 1)) =
    (Normal (VInt 1), Semaphore.Make 1 None []) /\
  base_view (AtomicSemaphore.release (Context 7 100)
               (new_AtomicSemaphore 1)) =
    (Normal VNone, Semaphore.Make 2 None []).
Proof.
  exact (atomic_semaphore_refines_base (Context 7 100) true None
           (new_AtomicSemaphore 1) counted_init).
Defined.

(** ** The reentrant lock *)

Section rlock_facts.
Context {B : Type} `{!SemaphoreAPI B}.
Variable cx : context.

Lemma set_count_same (self : RLock.t B) :
  RLock.set_count (RLock._count self) self = self.
Proof. by destruct self. Qed.

Lemma acquire_by_owner blocking timeout (self : RLock.t B) :
  RLock._owner self = Some (getcurrent cx) ->
  RLock.acquire cx blocking timeout self =
    (Normal (VInt 1), RLock.set_count (RLock._count self + 1) self).
Proof.
  intros Hown. unfold RLock.acquire, bind, gets. simpl.
  rewrite Hown. by rewrite bool_decide_eq_true_2.
Qed.

Lemma acquire_by_owner_repeated blocking timeout (n : nat) :
  forall self : RLock.t B,
    RLock._owner self = Some (getcurrent cx) ->
    repeat_call (RLock.acquire cx blocking timeout) n self =
      (replicate n (Normal (VInt 1)),
       RLock.set_count (RLock._count self + Z.of_nat n) self).
Proof.
  induction n as [|n IH]; intros self Hown.
  - simpl. by rewrite Z.add_0_r, set_count_same.
  - cbn [repeat_call replicate]. rewrite acquire_by_owner by done.
    rewrite IH by done. destruct self as [b o c].
    unfold RLock.set_count. simpl. do 2 f_equal. lia.
Qed.

(** A caller that is not the owner gets what the semaphore answers, and
    becomes the owner with depth 1 when the answer is true. *)
Lemma acquire_by_other blocking timeout (self : RLock.t B) :
  RLock._owner self <> Some (getcurrent cx) ->
  RLock.acquire cx blocking timeout self =
    match sem_acquire cx blocking timeout (RLock._block self) with
    | (Normal rc, b') =>
        (Normal rc,
         if truthy rc then RLock.Make b' (Some (getcurrent cx)) 1
         else RLock.set_block b' self)
    | (Raised e, b') => (Raised e, RLock.set_block b' self)
    | (Blocked, b') => (Blocked, RLock.set_block b' self)
    end.
Proof.
  intros Hown. unfold RLock.acquire, bind, gets, RLock.on_block. simpl.
  rewrite bool_decide_eq_false_2 by done.
  destruct (sem_acquire cx blocking timeout (RLock._block self))
    as [[rc|e|] b']; try done.
  by destruct (truthy rc).
Qed.

Lemma release_by_other (self : RLock.t B) :
  RLock._owner self <> Some (getcurrent cx) ->
  RLock.release cx self =
    (Raised (RuntimeError "cannot release un-acquired lock"), self).
Proof.
  intros Hown. unfold RLock.release, bind, gets. simpl.
  by rewrite bool_decide_eq_true_2.
Qed.

Lemma release_by_owner (self : RLock.t B) :
  RLock._owner self = Some (getcurrent cx) ->
  RLock.release cx self =
    if bool_decide (RLock._count self - 1 = 0) then
      (discard (fst (sem_release cx (RLock._block self))),
       RLock.Make (snd (sem_release cx (RLock._block self))) None 0)
    else (Normal tt, RLock.set_count (RLock._count self - 1) self).
Proof.
  intros Hown. unfold RLock.release, bind, gets, modify, RLock.on_block.
  simpl. rewrite bool_decide_eq_false_2 by (intros Hne; by apply Hne).
  case_bool_decide as Hz; [|done].
  rewrite Hz. simpl.
  by destruct (sem_release cx (RLock._block self)) as [[v|e|] b'].
Qed.

Lemma release_save_eq (self : RLock.t B) :
  RLock._release_save cx self =
    (match fst (sem_release cx (RLock._block self)) with
     | Normal _ => Normal (RLock._count self, RLock._owner self)
     | Raised e => Raised e
     | Blocked => Blocked
     end,
     RLock.Make (snd (sem_release cx (RLock._block self))) None 0).
Proof.
  unfold RLock._release_save, bind, gets, modify, RLock.on_block. simpl.
  by destruct (sem_release cx (RLock._block self)) as [[v|e|] b'].
Qed.

Lemma acquire_restore_eq count owner (self : RLock.t B) :
  RLock._acquire_restore cx (count, owner) self =
    match sem_acquire cx true None (RLock._block self) with
    | (Normal _, b') => (Normal tt, RLock.Make b' owner count)
    | (Raised e, b') => (Raised e, RLock.set_block b' self)
    | (Blocked, b') => (Blocked, RLock.set_block b' self)
    end.
Proof.
  unfold RLock._acquire_restore, bind, modify, RLock.on_block. simpl.
  by destruct (sem_acquire cx true None (RLock._block self)) as [[v|e|] b'].
Qed.

End rlock_facts.

(** ** The lock over the semaphores of [lock.py] *)

Section bound_semaphores.
Variable cx : context.

Lemma base_acquire_free blocking timeout (s : Semaphore.t) :
  0 < Semaphore.counter s ->
  base_acquire cx blocking timeout s =
    (Normal (VBool true), Semaphore.set_counter (Semaphore.counter s - 1) s).
Proof.
  intros Hpos. unfold base_acquire. simpl.
  by rewrite (proj2 (Z.ltb_lt _ _) Hpos).
Qed.


Lemma base_release_unbounded (s : Semaphore.t) :
  Semaphore.bound s = None ->
  base_release cx s =
    (Normal VNone,
     Semaphore.set_waiters (tail (Semaphore.waiters s))
       (Semaphore.set_counter (Semaphore.counter s + 1) s)).
Proof. intros Hb. unfold base_release. simpl. by rewrite Hb. Qed.

(** A bracketed method on a gate as a single thread finds it. *)
Lemma atomic_call {A} (m : method Semaphore.t A)
    (self : AtomicSemaphore.t Semaphore.t) :
  OwnedLock.counted (AtomicSemaphore._lock_lock self) ->
  exists self',
    AtomicSemaphore.with_lock cx (AtomicSemaphore.run cx m) self =
      (fst (run_super (Semaphore._wait cx) m (AtomicSemaphore.super self)),
       self') /\
    AtomicSemaphore.super self' =
      snd (run_super (Semaphore._wait cx) m (AtomicSemaphore.super self)) /\
    OwnedLock.counted (AtomicSemaphore._lock_lock self').
Proof.
  intros Hc.
  destruct (with_lock_idle cx m self Hc) as (g' & new & Heq & Hc' & _).
  eexists. split; [exact Heq|]. by split.
Qed.

Lemma atomic_release_unbounded (self : AtomicSemaphore.t Semaphore.t) :
  OwnedLock.counted (AtomicSemaphore._lock_lock self) ->
  Semaphore.bound (AtomicSemaphore.super self) = None ->
  exists self',
    AtomicSemaphore.release cx self = (Normal VNone, self') /\
    AtomicSemaphore.super self' =
      Semaphore.set_waiters
        (tail (Semaphore.waiters (AtomicSemaphore.super self)))
        (Semaphore.set_counter
           (Semaphore.counter (AtomicSemaphore.super self) + 1)
           (AtomicSemaphore.super self)) /\
    OwnedLock.counted (AtomicSemaphore._lock_lock self').
Proof.
  intros Hc Hb.
  destruct (atomic_call Semaphore.release self Hc) as (self' & Heq & Hs & Hc').
  pose proof (base_release_unbounded _ Hb) as Hr.
  unfold base_release in Hr. simpl super_release in Hr.
  simpl super__wait in Hr. rewrite Hr in Heq, Hs.
  by exists self'.
Qed.

Lemma atomic_acquire_free blocking timeout
    (self : AtomicSemaphore.t Semaphore.t) :
  OwnedLock.counted (AtomicSemaphore._lock_lock self) ->
  0 < Semaphore.counter (AtomicSemaphore.super self) ->
  exists self',
    AtomicSemaphore.acquire cx blocking timeout self =
      (Normal (VBool true), self') /\
    AtomicSemaphore.super self' =
      Semaphore.set_counter
        (Semaphore.counter (AtomicSemaphore.super self) - 1)
        (AtomicSemaphore.super self) /\
    OwnedLock.counted (AtomicSemaphore._lock_lock self').
Proof.
  intros Hc Hpos.
  destruct (atomic_call (Semaphore.acquire blocking timeout) self Hc)
    as (self' & Heq & Hs & Hc').
  pose proof (base_acquire_free blocking timeout _ Hpos) as Hr.
  unfold base_acquire in Hr. simpl super_acquire in Hr.
  simpl super__wait in Hr. rewrite Hr in Heq, Hs.
  by exists self'.
Qed.

(** Scenario: on a new lock, [acquire()] called [n + 1] times in a row by
    one task succeeds each time and leaves the depth at [n + 1]. *)
Lemma new_lock_acquired_repeatedly_atomic (n : nat) :
  let r := repeat_call (RLock.acquire cx true None) (S n)
             (RLock.__init__ new_AtomicSemaphore) in
  Forall succeeded (fst r) /\
  RLock._count (snd r) = Z.of_nat (S n) /\
  RLock._owner (snd r) = Some (getcurrent cx).
Proof.
  cbn zeta. cbn [repeat_call].
  rewrite acquire_by_other by done.
  cbn [RLock._block RLock.__init__ sem_acquire AtomicSemaphore_api].
  destruct (atomic_acquire_free true None (new_AtomicSemaphore 1))
    as (a' & -> & _); [apply counted_init | done |].
  cbn [truthy]. rewrite acquire_by_owner_repeated by done.
  cbn [fst snd RLock._count RLock._owner RLock.set_count].
  repeat split; [|lia].
  constructor; [by exists (VBool true)|].
  apply Forall_replicate. by exists (VInt 1).
Qed.

Lemma new_lock_acquired_repeatedly_base (n : nat) :
  let r := repeat_call (RLock.acquire cx true None) (S n)
             (RLock.__init__ new_Semaphore) in
  Forall succeeded (fst r) /\
  RLock._count (snd r) = Z.of_nat (S n) /\
  RLock._owner (snd r) = Some (getcurrent cx).
Proof.
  cbn zeta. cbn [repeat_call].
  rewrite acquire_by_other by done.
  cbn [RLock._block RLock.__init__ sem_acquire Semaphore_api].
  rewrite base_acquire_free by done.
  cbn [truthy]. rewrite acquire_by_owner_repeated by done.
  cbn [fst snd RLock._count RLock._owner RLock.set_count].
  repeat split; [|lia].
  constructor; [by exists (VBool true)|].
  apply Forall_replicate. by exists (VInt 1).
Qed.

End bound_semaphores.

(** C4.  When the calling task is the owner, [acquire] returns 1 at once
    and adds exactly 1 to the depth; the semaphore in [_block] is the same
    before and after, whatever implements it, so none of its methods is
    called.  Called [n] times in a row by the owner it returns 1 each time
    and adds [n]; on a new lock, under either binding of [Semaphore],
    [n + 1] calls in a row by one task all succeed and leave the depth at
    [n + 1]. *)
Theorem rlock_acquire_reentrant (cx : context) (blocking : bool)
    (timeout : option Z) (n : nat) :
  (forall (B : Type) (api : SemaphoreAPI B) (self : RLock.t B),
      RLock._owner self = Some (getcurrent cx) ->
      RLock.acquire cx blocking timeout self =
        (Normal (VInt 1), RLock.set_count (RLock._count self + 1) self) /\
      repeat_call (RLock.acquire cx blocking timeout) n self =
        (replicate n (Normal (VInt 1)),
         RLock.set_count (RLock._count self + Z.of_nat n) self)) /\
  (let r := repeat_call (RLock.acquire cx true None) (S n)
              (RLock.__init__ new_AtomicSemaphore) in
   Forall succeeded (fst r) /\
   RLock._count (snd r) = Z.of_nat (S n) /\
   RLock._owner (snd r) = Some (getcurrent cx)) /\
  (let r := repeat_call (RLock.acquire cx true None) (S n)
              (RLock.__init__ new_Semaphore) in
   Forall succeeded (fst r) /\
   RLock._count (snd r) = Z.of_nat (S n) /\
   RLock._owner (snd r) = Some (getcurrent cx)).
Proof.
  split; [|split].
  - intros B api self Hown. split.
    + by apply acquire_by_owner.
    + by apply acquire_by_owner_repeated.
  - apply new_lock_acquired_repeatedly_atomic.
  - apply new_lock_acquired_repeatedly_base.
Qed.

Lemma rlock_acquire_reentrant_witness :
  repeat_call (RLock.acquire (Context 7 100) true None) 3
    (RLock.Make (new_AtomicSemaphore 0) (Some 100) 2) =
    ([Normal (VInt 1); Normal (VInt 1); Normal (VInt 1)],
     RLock.Make (new_AtomicSemaphore 0) (Some 100) 5).
Proof.
  exact (proj2 (proj1 (rlock_acquire_reentrant (Context 7 100) true None 3)
                  _ _ (RLock.Make (new_AtomicSemaphore 0) (Some 100) 2)
                  eq_refl)).
Defined.

(** C5.  [release] by a task that is not the owner, also on a lock nobody
    holds, raises [RuntimeError] and leaves the lock as it was.  By the
    owner it takes 1 off the depth; the owner is cleared and the semaphore
    released when, and only when, the depth reaches 0. *)
Theorem rlock_release_checks_owner {B : Type} `{!SemaphoreAPI B}
    (cx : context) (self : RLock.t B) :
  (RLock._owner self <> Some (getcurrent cx) ->
   RLock.release cx self =
     (Raised (RuntimeError "cannot release un-acquired lock"), self)) /\
  (RLock._owner self = Some (getcurrent cx) ->
   RLock._count self - 1 <> 0 ->
   RLock.release cx self =
     (Normal tt, RLock.set_count (RLock._count self - 1) self)) /\
  (RLock._owner self = Some (getcurrent cx) ->
   RLock._count self - 1 = 0 ->
   RLock.release cx self =
     (discard (fst (sem_release cx (RLock._block self))),
      RLock.Make (snd (sem_release cx (RLock._block self))) None 0)).
Proof.
  split; [|split].
  - apply release_by_other.
  - intros Hown Hne. rewrite release_by_owner by done.
    by rewrite bool_decide_eq_false_2.
  - intros Hown Hz. rewrite release_by_owner by done.
    by rewrite bool_decide_eq_true_2.
Qed.

Lemma rlock_release_checks_owner_witness :
  RLock.release (Context 8 200)
    (RLock.Make (new_Semaphore 0) (Some 100) 2) =
    (Raised (RuntimeError "cannot release un-acquired lock"),
     RLock.Make (new_Semaphore 0) (Some 100) 2) /\
  RLock.release (Context 8 200) (RLock.__init__ new_Semaphore) =
    (Raised (RuntimeError "cannot release un-acquired lock"),
     RLock.__init__ new_Semaphore) /\
  RLock.release (Context 7 100)
    (RLock.Make (new_Semaphore 0) (Some 100) 2) =
    (Normal tt, RLock.Make (new_Semaphore 0) (Some 100) 1) /\
  RLock.release (Context 7 100)
    (RLock.Make (new_Semaphore 0) (Some 100) 1) =
    (Normal tt, RLock.Make (new_Semaphore 1) None 0).
Proof.
  split; [|split; [|split]].
  - refine (proj1 (rlock_release_checks_owner (Context 8 200)
                     (RLock.Make (new_Semaphore 0) (Some 100) 2)) _).
    vm_compute. discriminate.
  - refine (proj1 (rlock_release_checks_owner (Context 8 200)
                     (RLock.__init__ new_Semaphore)) _).
    vm_compute. discriminate.
  - refine (proj1 (proj2 (rlock_release_checks_owner (Context 7 100)
                     (RLock.Make (new_Semaphore 0) (Some 100) 2))) _ _).
    + reflexivity.
    + vm_compute. discriminate.
  - exact (proj2 (proj2 (rlock_release_checks_owner (Context 7 100)
                     (RLock.Make (new_Semaphore 0) (Some 100) 1)))
             eq_refl eq_refl).
Defined.

(** The round trip on the binding of [Semaphore] to the base class. *)
Lemma rlock_save_restore_roundtrip_base (cx : context)
    (self : RLock.t Semaphore.t) :
  Semaphore.bound (RLock._block self) = None ->
  0 <= Semaphore.counter (RLock._block self) ->
  exists saved restored,
    RLock._release_save cx self =
      (Normal (RLock._count self, RLock._owner self), saved) /\
    RLock._owner saved = None /\
    RLock._count saved = 0 /\
    Semaphore.counter (RLock._block saved) =
      Semaphore.counter (RLock._block self) + 1 /\
    RLock._acquire_restore cx (RLock._count self, RLock._owner self) saved =
      (Normal tt, restored) /\
    RLock._owner restored = RLock._owner self /\
    RLock._count restored = RLock._count self /\
    Semaphore.counter (RLock._block restored) =
      Semaphore.counter (RLock._block self).
Proof.
  intros Hb Hc. do 2 eexists.
  rewrite release_save_eq.
  cbn [sem_release sem_acquire Semaphore_api].
  rewrite base_release_unbounded by done. cbn [fst snd].
  split; [reflexivity|]. do 3 (split; [reflexivity|]).
  rewrite acquire_restore_eq.
  cbn [sem_release sem_acquire Semaphore_api RLock._block].
  rewrite base_acquire_free by (simpl; lia).
  split; [reflexivity|]. do 2 (split; [reflexivity|]).
  simpl. lia.
Qed.

(** The round trip on the pure-Python binding of [Semaphore]. *)
Lemma rlock_save_restore_roundtrip_atomic (cx : context)
    (self : RLock.t (AtomicSemaphore.t Semaphore.t)) :
  OwnedLock.counted (AtomicSemaphore._lock_lock (RLock._block self)) ->
  Semaphore.bound (AtomicSemaphore.super (RLock._block self)) = None ->
  0 <= Semaphore.counter (AtomicSemaphore.super (RLock._block self)) ->
  exists saved restored,
    RLock._release_save cx self =
      (Normal (RLock._count self, RLock._owner self), saved) /\
    RLock._owner saved = None /\
    RLock._count saved = 0 /\
    Semaphore.counter (AtomicSemaphore.super (RLock._block saved)) =
      Semaphore.counter (AtomicSemaphore.super (RLock._block self)) + 1 /\
    RLock._acquire_restore cx (RLock._count self, RLock._owner self) saved =
      (Normal tt, restored) /\
    RLock._owner restored = RLock._owner self /\
    RLock._count restored = RLock._count self /\
    Semaphore.counter (AtomicSemaphore.super (RLock._block restored)) =
      Semaphore.counter (AtomicSemaphore.super (RLock._block self)).
Proof.
  intros Hg Hb Hc.
  destruct (atomic_release_unbounded cx (RLock._block self) Hg Hb)
    as (a1 & Hrel & Hs1 & Hg1).
  destruct (atomic_acquire_free cx true None a1 Hg1)
    as (a2 & Hacq & Hs2 & Hg2); [rewrite Hs1; simpl; lia|].
  exists (RLock.Make a1 None 0),
    (RLock.Make a2 (RLock._owner self) (RLock._count self)).
  rewrite release_save_eq, acquire_restore_eq.
  cbn [sem_release sem_acquire AtomicSemaphore_api RLock._block
       RLock._owner RLock._count].
  rewrite Hrel, Hacq. cbn [fst snd].
  rewrite Hs2, Hs1. simpl.
  repeat split; lia.
Qed.

(** The round trip over any semaphore whose [release()] and following
    [acquire()] return. *)
Lemma rlock_save_restore_roundtrip_any {B : Type} `{!SemaphoreAPI B}
    (cx : context) (self : RLock.t B) (v1 v2 : value) (b1 b2 : B) :
  sem_release cx (RLock._block self) = (Normal v1, b1) ->
  sem_acquire cx true None b1 = (Normal v2, b2) ->
  RLock._release_save cx self =
    (Normal (RLock._count self, RLock._owner self), RLock.Make b1 None 0) /\
  RLock._acquire_restore cx (RLock._count self, RLock._owner self)
    (RLock.Make b1 None 0) =
    (Normal tt, RLock.Make b2 (RLock._owner self) (RLock._count self)).
Proof.
  intros Hrel Hacq. rewrite release_save_eq, acquire_restore_eq.
  rewrite Hrel. simpl. by rewrite Hacq.
Qed.

(** C6.  [_release_save] returns the pair of depth and owner, leaves the
    depth at 0 and the owner at [None] and releases the semaphore; the
    [_acquire_restore] of that pair right after takes the semaphore again
    and puts back exactly the depth and the owner that were captured.  This
    holds over any semaphore whose [release()] and [acquire()] return, and
    on a lock over [Semaphore(1)], under either binding of the name, both
    do return and the counter of the semaphore ends where it was.  It holds
    whoever owns the lock and at any depth, so also when the caller holds
    it [n >= 1] times. *)
Theorem rlock_save_restore_roundtrip (cx : context) :
  (forall (B : Type) (api : SemaphoreAPI B) (self : RLock.t B)
          (v1 v2 : value) (b1 b2 : B),
      sem_release cx (RLock._block self) = (Normal v1, b1) ->
      sem_acquire cx true None b1 = (Normal v2, b2) ->
      RLock._release_save cx self =
        (Normal (RLock._count self, RLock._owner self),
         RLock.Make b1 None 0) /\
      RLock._acquire_restore cx (RLock._count self, RLock._owner self)
        (RLock.Make b1 None 0) =
        (Normal tt, RLock.Make b2 (RLock._owner self) (RLock._count self))) /\
  (forall self : RLock.t (AtomicSemaphore.t Semaphore.t),
      OwnedLock.counted (AtomicSemaphore._lock_lock (RLock._block self)) ->
      Semaphore.bound (AtomicSemaphore.super (RLock._block self)) = None ->
      0 <= Semaphore.counter (AtomicSemaphore.super (RLock._block self)) ->
      exists saved restored,
        RLock._release_save cx self =
          (Normal (RLock._count self, RLock._owner self), saved) /\
        RLock._owner saved = None /\
        RLock._count saved = 0 /\
        Semaphore.counter (AtomicSemaphore.super (RLock._block saved)) =
          Semaphore.counter (AtomicSemaphore.super (RLock._block self)) + 1 /\
        RLock._acquire_restore cx (RLock._count self, RLock._owner self)
          saved = (Normal tt, restored) /\
        RLock._owner restored = RLock._owner self /\
        RLock._count restored = RLock._count self /\
        Semaphore.counter (AtomicSemaphore.super (RLock._block restored)) =
          Semaphore.counter (AtomicSemaphore.super (RLock._block self))) /\
  (forall self : RLock.t Semaphore.t,
      Semaphore.bound (RLock._block self) = None ->
      0 <= Semaphore.counter (RLock._block self) ->
      exists saved restored,
        RLock._release_save cx self =
          (Normal (RLock._count self, RLock._owner self), saved) /\
        RLock._owner saved = None /\
        RLock._count saved = 0 /\
        Semaphore.counter (RLock._block saved) =
          Semaphore.counter (RLock._block self) + 1 /\
        RLock._acquire_restore cx (RLock._count self, RLock._owner self)
          saved = (Normal tt, restored) /\
        RLock._owner restored = RLock._owner self /\
        RLock._count restored = RLock._count self /\
        Semaphore.counter (RLock._block restored) =
          Semaphore.counter (RLock._block self)).
Proof.
  split; [|split].
  - intros B api self v1 v2 b1 b2. apply rlock_save_restore_roundtrip_any.
  - apply rlock_save_restore_roundtrip_atomic.
  - apply rlock_save_restore_roundtrip_base.
Qed.

Lemma rlock_save_restore_roundtrip_witness :
  fst (RLock._release_save (Context 7 100)
         (RLock.Make (new_AtomicSemaphore 0) (Some 100) 2)) =
    Normal (2, Some 100) /\
  exists saved restored,
    RLock._release_save (Context 7 100)
      (RLock.Make (new_AtomicSemaphore 0) (Some 100) 2) =
      (Normal (2, Some 100), saved) /\
    RLock._owner saved = None /\
    RLock._count saved = 0 /\
    Semaphore.counter (AtomicSemaphore.super (RLock._block saved)) = 0 + 1 /\
    RLock._acquire_restore (Context 7 100) (2, Some 100) saved =
      (Normal tt, restored) /\
    RLock._owner restored = Some 100 /\
    RLock._count restored = 2 /\
    Semaphore.counter (AtomicSemaphore.super (RLock._block restored)) = 0.
Proof.
  split.
  - reflexivity.
  - refine (proj1 (proj2 (rlock_save_restore_roundtrip (Context 7 100)))
              (RLock.Make (new_AtomicSemaphore 0) (Some 100) 2)
              counted_init eq_refl _).
    simpl. lia.
Defined.

Section rlock_invariant.
Context {B : Type} `{!SemaphoreAPI B}.
Variable cx : context.

Lemma consistent_set_block b (self : RLock.t B) :
  RLock.consistent self -> RLock.consistent (RLock.set_block b self).
Proof. by destruct self. Qed.

Lemma consistent_free (b : B) : RLock.consistent (RLock.Make b None 0).
Proof. by left. Qed.

Lemma consistent_owned (b : B) o n :
  0 < n -> RLock.consistent (RLock.Make b (Some o) n).
Proof. intros Hn. right. by exists o. Qed.

Lemma acquire_consistent blocking timeout (self : RLock.t B) :
  RLock.consistent self ->
  RLock.consistent (snd (RLock.acquire cx blocking timeout self)).
Proof.
  intros Hc.
  destruct (decide (RLock._owner self = Some (getcurrent cx))) as [Hown|Hown].
  - rewrite acquire_by_owner by done. destruct self as [b o c].
    simpl in *. subst o. apply consistent_owned.
    destruct Hc as [[[=] _]|(o & _ & Hpos)]. simpl in Hpos. lia.
  - rewrite acquire_by_other by done.
    destruct (sem_acquire cx blocking timeout (RLock._block self))
      as [[rc|e|] b']; simpl; try by apply consistent_set_block.
    destruct (truthy rc); [by apply consistent_owned|].
    by apply consistent_set_block.
Qed.

Lemma release_consistent (self : RLock.t B) :
  RLock.consistent self -> RLock.consistent (snd (RLock.release cx self)).
Proof.
  intros Hc.
  destruct (decide (RLock._owner self = Some (getcurrent cx))) as [Hown|Hown].
  - rewrite release_by_owner by done.
    case_bool_decide as Hz; simpl; [apply consistent_free|].
    destruct self as [b o c]. simpl in *. subst o.
    apply consistent_owned.
    destruct Hc as [[[=] _]|(o & _ & Hpos)]. simpl in Hpos. lia.
  - by rewrite release_by_other.
Qed.

Lemma release_save_consistent (self : RLock.t B) :
  RLock.consistent (snd (RLock._release_save cx self)).
Proof. rewrite release_save_eq. apply consistent_free. Qed.

Lemma acquire_restore_consistent n o (self : RLock.t B) :
  0 < n ->
  RLock.consistent self ->
  RLock.consistent (snd (RLock._acquire_restore cx (n, Some o) self)).
Proof.
  intros Hn Hc. rewrite acquire_restore_eq.
  destruct (sem_acquire cx true None (RLock._block self)) as [[v|e|] b'];
    simpl; [by apply consistent_owned | |]; by apply consistent_set_block.
Qed.

End rlock_invariant.

(** C7.  A new lock is free with depth 0, and from a lock that is either
    free with depth 0 or owned with a positive depth every method leaves
    such a lock, however the call ends: [acquire] (granted, refused or
    raising), [release], [_release_save], and [_acquire_restore] of a pair
    captured from a held lock.  The owner is one task: two callers that both
    find themselves the owner are the same task. *)
Theorem rlock_consistent_preserved {B : Type} `{!SemaphoreAPI B}
    (cx : context) (Semaphore : Z -> B) (self : RLock.t B) :
  RLock.consistent self ->
  RLock.consistent (RLock.__init__ Semaphore) /\
  (forall blocking timeout,
      RLock.consistent (snd (RLock.acquire cx blocking timeout self))) /\
  RLock.consistent (snd (RLock.release cx self)) /\
  RLock.consistent (snd (RLock._release_save cx self)) /\
  (forall n o,
      0 < n ->
      RLock.consistent (snd (RLock._acquire_restore cx (n, Some o) self))) /\
  (forall cx',
      fst (RLock._is_owned cx self) = Normal true ->
      fst (RLock._is_owned cx' self) = Normal true ->
      getcurrent cx = getcurrent cx').
Proof.
  intros Hc. split; [apply consistent_free|].
  split; [intros; by apply acquire_consistent|].
  split; [by apply release_consistent|].
  split; [apply release_save_consistent|].
  split; [intros; by apply acquire_restore_consistent|].
  intros cx'. unfold RLock._is_owned, bind, gets, ret. simpl.
  intros [= H1] [= H2].
  apply bool_decide_eq_true_1 in H1, H2. congruence.
Qed.

Lemma rlock_consistent_preserved_witness :
  RLock.consistent
    (snd (RLock.acquire (Context 8 200) false None
            (RLock.Make (new_AtomicSemaphore 0) (Some 100) 2))) /\
  RLock.consistent
    (snd (RLock.release (Context 7 100)
            (RLock.Make (new_AtomicSemaphore 0) (Some 100) 2))).
Proof.
  pose proof (rlock_consistent_preserved (Context 8 200) new_AtomicSemaphore
                (RLock.Make (new_AtomicSemaphore 0) (Some 100) 2)
                (consistent_owned _ 100 2 eq_refl)) as H8.
  pose proof (rlock_consistent_preserved (Context 7 100) new_AtomicSemaphore
                (RLock.Make (new_AtomicSemaphore 0) (Some 100) 2)
                (consistent_owned _ 100 2 eq_refl)) as H7.
  exact (conj (proj1 (proj2 H8) false None) (proj1 (proj2 (proj2 H7)))).
Defined.

(** C8.  When a task that is not the owner calls [acquire] and the
    semaphore answers with a false value (a refused non-blocking call or an
    expired timer), [acquire] returns that value, it does not raise, and the
    owner and the depth are what they were. *)
Theorem rlock_failed_acquire_keeps_state {B : Type} `{!SemaphoreAPI B}
    (cx : context) (blocking : bool) (timeout : option Z)
    (self : RLock.t B) (rc : value) (b' : B) :
  RLock._owner self <> Some (getcurrent cx) ->
  sem_acquire cx blocking timeout (RLock._block self) = (Normal rc, b') ->
  truthy rc = false ->
  RLock.acquire cx blocking timeout self =
    (Normal rc, RLock.Make b' (RLock._owner self) (RLock._count self)).
Proof.
  intros Hown Hsem Hrc. rewrite acquire_by_other by done.
  by rewrite Hsem, Hrc.
Qed.

Lemma rlock_failed_acquire_keeps_state_witness :
  RLock.acquire (Context 8 200) true (Some 0)
    (RLock.Make (new_Semaphore 0) (Some 100) 1) =
    (Normal (VBool false), RLock.Make (new_Semaphore 0) (Some 100) 1) /\
  fst (RLock.acquire (Context 8 200) false None
         (RLock.Make (new_AtomicSemaphore 0) (Some 100) 1)) =
    Normal (VBool false).
Proof.
  split.
  - refine (rlock_failed_acquire_keeps_state (Context 8 200) true (Some 0)
              (RLock.Make (new_Semaphore 0) (Some 100) 1)
              (VBool false) (new_Semaphore 0) _ eq_refl eq_refl).
    vm_compute. discriminate.
  - reflexivity.
Defined.

(** ** The no-op semaphore *)

(** C9.  Every method of [DummySemaphore] returns at once and leaves the
    object as it is: [acquire] returns [True] for all arguments, [wait]
    returns 1 for every timeout, [locked()] is [False], [ready()] is [True]
    and [release()] returns [None]. *)
Theorem dummy_semaphore_never_blocks (self : DummySemaphore.t)
    (blocking : bool) (timeout : option Z) :
  DummySemaphore.acquire blocking timeout self = (Normal (VBool true), self) /\
  DummySemaphore.wait timeout self = (Normal (VInt 1), self) /\
  DummySemaphore.locked self = (Normal (VBool false), self) /\
  DummySemaphore.ready self = (Normal (VBool true), self) /\
  DummySemaphore.release self = (Normal VNone, self).
Proof. by repeat split. Qed.

(** A lock built on a [DummySemaphore] grants every [acquire], also to a
    task that is not the owner. *)
Lemma rlock_over_dummy_always_granted (cx : context) (blocking : bool)
    (timeout : option Z) (self : RLock.t DummySemaphore.t) :
  succeeded (fst (RLock.acquire cx blocking timeout self)).
Proof.
  destruct (decide (RLock._owner self = Some (getcurrent cx))) as [Hown|Hown].
  - rewrite acquire_by_owner by done. by exists (VInt 1).
  - rewrite acquire_by_other by done. by exists (VBool true).
Qed.

(** * Further properties of the gate *)

Section gate_histories.
Variable cx : context.

Lemma skipped_entry self :
  default 0 (OwnedLock._locking (skipped cx self) !! _get_ident cx) =
    default 0 (OwnedLock._locking self !! _get_ident cx) + 1.
Proof.
  unfold skipped. simpl. rewrite lookup_insert_eq. simpl.
  by destruct (OwnedLock._locking self !! _get_ident cx).
Qed.

Lemma skipped_other_entries self k :
  k <> _get_ident cx ->
  OwnedLock._locking (skipped cx self) !! k = OwnedLock._locking self !! k.
Proof. intros Hne. unfold skipped. simpl. by rewrite lookup_insert_ne. Qed.

Lemma gate_method_counted c self :
  OwnedLock.counted self ->
  gate_method cx c self = (Normal tt, skipped cx self).
Proof.
  intros Hc. destruct c; simpl;
    [by apply enter_counted | by apply release_counted].
Qed.

End gate_histories.

(** However a thread calls [__enter__] and [release] on a gate made by
    [_OwnedLock()] or reached from one, every call returns, none raises or
    blocks, the owner, the OS mutex and the depth never change, and the
    thread's entry of [_locking] goes up by one with every call and is never
    removed; the entries of other threads are not touched. *)
Theorem gate_calls_only_count (cx : context) (cs : list gate_call)
    (self : OwnedLock.t) :
  OwnedLock.counted self ->
  let r := run_calls (gate_method cx) cs self in
  Forall (fun o => o = Normal tt) (fst r) /\
  same_hold self (snd r) /\
  OwnedLock.counted (snd r) /\
  default 0 (OwnedLock._locking (snd r) !! _get_ident cx) =
    default 0 (OwnedLock._locking self !! _get_ident cx)
    + Z.of_nat (length cs) /\
  (forall k, k <> _get_ident cx ->
             OwnedLock._locking (snd r) !! k = OwnedLock._locking self !! k).
Proof.
  revert self. induction cs as [|c cs IH]; intros self Hc.
  - simpl. repeat split; try done. lia.
  - cbn [run_calls]. rewrite gate_method_counted by done.
    specialize (IH (skipped cx self) (skipped_counted cx self Hc)).
    cbn zeta in IH.
    destruct (run_calls (gate_method cx) cs (skipped cx self)) as [os g'].
    cbn [fst snd] in *.
    destruct IH as (Hos & Hs & Hc' & Hn & Hk).
    split; [by constructor|].
    split; [exact (same_hold_trans _ _ _ (skipped_same_hold cx self) Hs)|].
    split; [done|].
    split.
    + rewrite Hn, skipped_entry. cbn [length]. lia.
    + intros k Hne. rewrite Hk by done. by apply skipped_other_entries.
Qed.

Lemma gate_calls_only_count_witness :
  snd (run_calls (gate_method (Context 7 100))
         [Gate_enter; Gate_enter; Gate_release; Gate_release; Gate_release]
         OwnedLock.__init__) =
    OwnedLock.Make None false {[7 := 5]} 0 /\
  same_hold OwnedLock.__init__
    (snd (run_calls (gate_method (Context 7 100))
            [Gate_enter; Gate_enter; Gate_release; Gate_release;
             Gate_release]
            OwnedLock.__init__)).
Proof.
  split.
  - vm_compute. reflexivity.
  - exact (proj1 (proj2 (gate_calls_only_count (Context 7 100)
             [Gate_enter; Gate_enter; Gate_release; Gate_release;
              Gate_release]
             OwnedLock.__init__ counted_init))).
Defined.

(** ** The gate when [__begin] lets the caller in

    [__begin] answers [(me, 0)] from a recorded count of -1 and [__end]
    puts the -1 back, so a gate in which a thread has that entry does its
    work for that thread on every call. *)

Section engaged_gate.
Variable cx : context.

Lemma enter_by_owner_when_engaged self :
  OwnedLock._locking self !! _get_ident cx = Some (-1) ->
  OwnedLock._owner self = Some (_get_ident cx) ->
  OwnedLock.__enter__ cx self =
    (Normal tt, OwnedLock.set_count (OwnedLock._count self + 1) self).
Proof.
  intros Hl Hown. destruct self as [o b l c]. simpl in *. subst o.
  unfold OwnedLock.__enter__, bind, OwnedLock.__begin. simpl. rewrite Hl.
  simpl. unfold try_finally, bind, gets, modify. simpl.
  rewrite bool_decide_eq_true_2 by done. simpl.
  unfold OwnedLock.set_locking, OwnedLock.set_count. simpl.
  rewrite (insert_insert_eq (M:=gmap Z)). by rewrite insert_id.
Qed.

Lemma release_when_engaged self :
  OwnedLock._locking self !! _get_ident cx = Some (-1) ->
  OwnedLock.release cx self =
    if bool_decide (OwnedLock._count self - 1 = 0) then
      if OwnedLock._block self then (Normal tt, with_hold None false 0 self)
      else (Raised (RuntimeError "release unlocked lock"),
            with_hold (OwnedLock._owner self) false 0 self)
    else (Normal tt, OwnedLock.set_count (OwnedLock._count self - 1) self).
Proof.
  intros Hl. destruct self as [o b l c]. simpl in *.
  unfold OwnedLock.release, bind, OwnedLock.__begin. simpl. rewrite Hl.
  simpl. unfold try_finally, bind, gets, modify, OwnedLock.on_block. simpl.
  unfold with_hold, OwnedLock.set_locking, OwnedLock.set_count. simpl.
  case_bool_decide as Hz; simpl.
  - destruct b; simpl; rewrite (insert_insert_eq (M:=gmap Z));
      rewrite insert_id by done; by rewrite ?Hz.
  - rewrite (insert_insert_eq (M:=gmap Z)). by rewrite insert_id.
Qed.

Lemma enters_by_owner_when_engaged (n : nat) :
  forall c self,
    OwnedLock._locking self !! _get_ident cx = Some (-1) ->
    repeat_call (OwnedLock.__enter__ cx) n
      (with_hold (Some (_get_ident cx)) true c self) =
      (replicate n (Normal tt),
       with_hold (Some (_get_ident cx)) true (c + Z.of_nat n) self).
Proof.
  induction n as [|n IH]; intros c self Hl.
  - simpl. by rewrite Z.add_0_r.
  - cbn [repeat_call replicate].
    rewrite enter_by_owner_when_engaged by done.
    change (OwnedLock.set_count _ _)
      with (with_hold (Some (_get_ident cx)) true (c + 1) self).
    rewrite IH by done. unfold with_hold. simpl. do 2 f_equal. lia.
Qed.

Lemma repeat_call_S {W A} (m : M W A) (n : nat) (w : W) :
  repeat_call m (S n) w =
    let '(o, w') := m w in
    let '(os, w'') := repeat_call m n w' in
    (o :: os, w'').
Proof. reflexivity. Qed.

Lemma releases_by_owner_when_engaged (n : nat) :
  forall self,
    OwnedLock._locking self !! _get_ident cx = Some (-1) ->
    repeat_call (OwnedLock.release cx) (S n)
      (with_hold (Some (_get_ident cx)) true (Z.of_nat (S n)) self) =
      (replicate (S n) (Normal tt), with_hold None false 0 self).
Proof.
  induction n as [|n IH]; intros self Hl.
  - cbn [repeat_call replicate]. rewrite release_when_engaged by done.
    simpl. done.
  - rewrite repeat_call_S. rewrite release_when_engaged by done.
    cbn [OwnedLock._count with_hold].
    rewrite bool_decide_eq_false_2 by lia.
    change (OwnedLock.set_count ?c (with_hold ?o ?b _ self))
      with (with_hold o b c self).
    replace (Z.of_nat (S (S n)) - 1) with (Z.of_nat (S n)) by lia.
    rewrite (IH self Hl). done.
Qed.

End engaged_gate.

(** For a thread whose recorded count is -1, so that [__begin] lets it in,
    the brackets nest: on a gate with the OS mutex free, [n + 1] calls of
    [__enter__] in a row take the mutex once, make the thread the owner and
    bring the depth to [n + 1], and [n + 1] calls of [release] after them
    free the mutex and clear the owner, with [_locking] as it was. *)
Theorem gate_brackets_nest_when_engaged (cx : context) (n : nat)
    (self : OwnedLock.t) :
  OwnedLock._locking self !! _get_ident cx = Some (-1) ->
  OwnedLock._owner self <> Some (_get_ident cx) ->
  OwnedLock._block self = false ->
  repeat_call (OwnedLock.__enter__ cx) (S n) self =
    (replicate (S n) (Normal tt),
     with_hold (Some (_get_ident cx)) true (Z.of_nat (S n)) self) /\
  repeat_call (OwnedLock.release cx) (S n)
    (with_hold (Some (_get_ident cx)) true (Z.of_nat (S n)) self) =
    (replicate (S n) (Normal tt), with_hold None false 0 self).
Proof.
  intros Hl Hown Hb. split.
  - cbn [repeat_call replicate].
    rewrite enter_when_begin_proceeds by done.
    change (OwnedLock.Make ?o ?b (OwnedLock._locking self) ?c)
      with (with_hold o b c self).
    rewrite enters_by_owner_when_engaged by done.
    unfold with_hold. simpl. do 2 f_equal. lia.
  - by apply releases_by_owner_when_engaged.
Qed.

Lemma gate_brackets_nest_when_engaged_witness :
  repeat_call (OwnedLock.__enter__ (Context 7 100)) 3
    (OwnedLock.Make None false {[7 := -1]} 0) =
    ([Normal tt; Normal tt; Normal tt],
     OwnedLock.Make (Some 7) true {[7 := -1]} 3) /\
  repeat_call (OwnedLock.release (Context 7 100)) 3
    (OwnedLock.Make (Some 7) true {[7 := -1]} 3) =
    ([Normal tt; Normal tt; Normal tt],
     OwnedLock.Make None false {[7 := -1]} 0).
Proof.
  refine (gate_brackets_nest_when_engaged (Context 7 100) 2
            (OwnedLock.Make None false {[7 := -1]} 0) eq_refl _ eq_refl).
  discriminate.
Defined.

(** [release] looks neither at the owner nor at the depth.  Called by a
    thread that [__begin] lets in, on a gate another thread holds at depth
    1, it frees the OS mutex and clears the owner; called on a gate nobody
    holds, it returns and leaves the depth at -1. *)
Theorem gate_release_checks_nothing (cx : context) (other : Z)
    (self : OwnedLock.t) :
  OwnedLock._locking self !! _get_ident cx = Some (-1) ->
  other <> _get_ident cx ->
  OwnedLock.release cx (with_hold (Some other) true 1 self) =
    (Normal tt, with_hold None false 0 self) /\
  OwnedLock.release cx (with_hold None false 0 self) =
    (Normal tt, with_hold None false (-1) self).
Proof.
  intros Hl Hne. split; by rewrite release_when_engaged.
Qed.

Lemma gate_release_checks_nothing_witness :
  OwnedLock.release (Context 8 200)
    (OwnedLock.Make (Some 7) true {[8 := -1]} 1) =
    (Normal tt, OwnedLock.Make None false {[8 := -1]} 0) /\
  OwnedLock.release (Context 8 200)
    (OwnedLock.Make None false {[8 := -1]} 0) =
    (Normal tt, OwnedLock.Make None false {[8 := -1]} (-1)).
Proof.
  refine (gate_release_checks_nothing (Context 8 200) 7
            (OwnedLock.Make None false {[8 := -1]} 0) eq_refl _).
  discriminate.
Defined.

(** [__enter__] records the caller as owner before it takes the OS mutex:
    a thread that [__begin] lets in and that finds the mutex taken by
    another thread stays in [_block.acquire()] with [_owner] already
    overwritten by its own identity, the depth of the holder untouched and
    its own entry of [_locking] left at 0. *)
Theorem gate_contender_overwrites_owner (cx : context) (self : OwnedLock.t) :
  OwnedLock._locking self !! _get_ident cx = Some (-1) ->
  OwnedLock._owner self <> Some (_get_ident cx) ->
  OwnedLock._block self = true ->
  OwnedLock.__enter__ cx self =
    (Blocked,
     OwnedLock.Make (Some (_get_ident cx)) true
       (<[_get_ident cx := 0]> (OwnedLock._locking self))
       (OwnedLock._count self)).
Proof.
  intros Hl Hown Hb. destruct self as [o b l c]. simpl in *. subst b.
  unfold OwnedLock.__enter__, bind, OwnedLock.__begin. simpl. rewrite Hl.
  simpl. unfold try_finally, bind, gets, modify, OwnedLock.on_block. simpl.
  by rewrite bool_decide_eq_false_2.
Qed.

Lemma gate_contender_overwrites_owner_witness :
  OwnedLock.__enter__ (Context 8 200)
    (OwnedLock.Make (Some 7) true {[8 := -1]} 2) =
    (Blocked, OwnedLock.Make (Some 8) true (<[8 := 0]> {[8 := -1]}) 2).
Proof.
  refine (gate_contender_overwrites_owner (Context 8 200)
            (OwnedLock.Make (Some 7) true {[8 := -1]} 2) eq_refl _ eq_refl).
  discriminate.
Defined.

(** * Further properties of the gate-bracketed semaphore *)

Section engaged_semaphore.
Context {S : Type} `{!SemaphoreBase S}.
Variable cx : context.
Variable g : OwnedLock.t.
Hypothesis engaged : OwnedLock._locking g !! _get_ident cx = Some (-1).

Local Abbreviation idle := (idle_gate g).
Local Abbreviation held := (held_gate cx g).







End engaged_semaphore.



(** * Further properties of the reentrant lock *)

Section rlock_nesting.
Context {B : Type} `{!SemaphoreAPI B}.
Variable cx : context.

Lemma releases_by_owner (n : nat) :
  forall c (self : RLock.t B),
    RLock._owner self = Some (getcurrent cx) ->
    0 < c ->
    repeat_call (RLock.release cx) n
      (RLock.set_count (c + Z.of_nat n) self) =
      (replicate n (Normal tt), RLock.set_count c self).
Proof.
  induction n as [|n IH]; intros c self Hown Hc.
  - simpl. by rewrite Z.add_0_r.
  - rewrite repeat_call_S. rewrite release_by_owner by done.
    cbn [RLock._count RLock.set_count].
    rewrite bool_decide_eq_false_2 by lia.
    replace (RLock.set_count (c + Z.of_nat (S n) - 1)
               (RLock.set_count (c + Z.of_nat (S n)) self))
      with (RLock.set_count (c + Z.of_nat n) self)
      by (unfold RLock.set_count; simpl; f_equal; lia).
    by rewrite IH.
Qed.

End rlock_nesting.

(** Calls of [acquire] by the owner and as many calls of [release] after
    them cancel: the lock, with its semaphore, is exactly as before, over
    any semaphore, and each [release] returns. *)
Theorem rlock_nested_pairs_cancel {B : Type} `{!SemaphoreAPI B}
    (cx : context) (blocking : bool) (timeout : option Z) (n : nat)
    (self : RLock.t B) :
  RLock.consistent self ->
  RLock._owner self = Some (getcurrent cx) ->
  repeat_call (RLock.release cx) n
    (snd (repeat_call (RLock.acquire cx blocking timeout) n self)) =
    (replicate n (Normal tt), self).
Proof.
  intros Hc Hown. rewrite acquire_by_owner_repeated by done. cbn [snd].
  rewrite releases_by_owner; [by rewrite set_count_same | done |].
  destruct Hc as [[Hnone _]|(o & _ & Hpos)]; [congruence | done].
Qed.

Lemma rlock_nested_pairs_cancel_witness :
  repeat_call (RLock.release (Context 7 100)) 3
    (snd (repeat_call (RLock.acquire (Context 7 100) true None) 3
            (RLock.Make (new_AtomicSemaphore 0) (Some 100) 1))) =
    ([Normal tt; Normal tt; Normal tt],
     RLock.Make (new_AtomicSemaphore 0) (Some 100) 1).
Proof.
  exact (rlock_nested_pairs_cancel (Context 7 100) true None 3
           (RLock.Make (new_AtomicSemaphore 0) (Some 100) 1)
           (consistent_owned _ 100 1 eq_refl) eq_refl).
Defined.

Section lock_in_use.
Variable cx : context.




Lemma in_use_free_intro (self : RLock.t (AtomicSemaphore.t Semaphore.t)) :
  RLock._owner self = None ->
  RLock._count self = 0 ->
  Semaphore.bound (AtomicSemaphore.super (RLock._block self)) = None ->
  OwnedLock.counted (AtomicSemaphore._lock_lock (RLock._block self)) ->
  Semaphore.counter (AtomicSemaphore.super (RLock._block self)) = 1 ->
  in_use None 0 self.
Proof. intros. unfold in_use. intuition. Qed.

Lemma in_use_held_intro a d
    (self : RLock.t (AtomicSemaphore.t Semaphore.t)) :
  RLock._owner self = Some a ->
  RLock._count self = d ->
  0 < d ->
  Semaphore.bound (AtomicSemaphore.super (RLock._block self)) = None ->
  OwnedLock.counted (AtomicSemaphore._lock_lock (RLock._block self)) ->
  Semaphore.counter (AtomicSemaphore.super (RLock._block self)) = 0 ->
  in_use (Some a) d self.
Proof. intros. unfold in_use. intuition eauto. Qed.

Lemma in_use_free_elim (self : RLock.t (AtomicSemaphore.t Semaphore.t)) :
  in_use None 0 self ->
  RLock._owner self = None /\
  RLock._count self = 0 /\
  Semaphore.bound (AtomicSemaphore.super (RLock._block self)) = None /\
  OwnedLock.counted (AtomicSemaphore._lock_lock (RLock._block self)) /\
  Semaphore.counter (AtomicSemaphore.super (RLock._block self)) = 1.
Proof.
  intros (Ho & Hd & Hb & Hg & [(_ & _ & Hc)|(_ & Hpos & _)]); [done | lia].
Qed.

Lemma in_use_held_elim a d
    (self : RLock.t (AtomicSemaphore.t Semaphore.t)) :
  in_use (Some a) d self ->
  RLock._owner self = Some a /\
  RLock._count self = d /\
  0 < d /\
  Semaphore.bound (AtomicSemaphore.super (RLock._block self)) = None /\
  OwnedLock.counted (AtomicSemaphore._lock_lock (RLock._block self)) /\
  Semaphore.counter (AtomicSemaphore.super (RLock._block self)) = 0.
Proof.
  intros (Ho & Hd & Hb & Hg & [(Hnone & _)|(_ & Hpos & Hc)]); [done | done].
Qed.

Lemma acquire_when_free blocking timeout
    (self : RLock.t (AtomicSemaphore.t Semaphore.t)) :
  in_use None 0 self ->
  exists self',
    RLock.acquire cx blocking timeout self = (Normal (VBool true), self') /\
    in_use (Some (getcurrent cx)) 1 self'.
Proof.
  intros (Ho & Hd & Hb & Hg & Hc)%in_use_free_elim.
  rewrite acquire_by_other by (by rewrite Ho).
  cbn [sem_acquire AtomicSemaphore_api].
  destruct (atomic_acquire_free cx blocking timeout (RLock._block self) Hg)
    as (a' & -> & Hs & Hg'); [lia|].
  eexists. split; [reflexivity|]. cbn [truthy].
  apply in_use_held_intro; cbn [RLock._block RLock._owner RLock._count];
    try done; rewrite Hs; simpl; [done | lia].
Qed.

Lemma acquire_when_owner blocking timeout d
    (self : RLock.t (AtomicSemaphore.t Semaphore.t)) :
  in_use (Some (getcurrent cx)) d self ->
  exists self',
    RLock.acquire cx blocking timeout self = (Normal (VInt 1), self') /\
    in_use (Some (getcurrent cx)) (d + 1) self'.
Proof.
  intros (Ho & Hd & Hpos & Hb & Hg & Hc)%in_use_held_elim.
  rewrite acquire_by_owner by done.
  eexists. split; [reflexivity|].
  apply in_use_held_intro;
    cbn [RLock._block RLock.set_count RLock._owner RLock._count];
    try done; lia.
Qed.


Lemma release_when_owner d
    (self : RLock.t (AtomicSemaphore.t Semaphore.t)) :
  in_use (Some (getcurrent cx)) d self ->
  exists self',
    RLock.release cx self = (Normal tt, self') /\
    in_use (owner_at cx (d - 1)) (d - 1) self'.
Proof.
  intros (Ho & Hd & Hpos & Hb & Hg & Hc)%in_use_held_elim.
  rewrite release_by_owner by done. rewrite Hd. unfold owner_at.
  case_bool_decide as Hz.
  - cbn [sem_release AtomicSemaphore_api].
    destruct (atomic_release_unbounded cx (RLock._block self) Hg Hb)
      as (a' & -> & Hs & Hg').
    eexists. split; [reflexivity|].
    rewrite Hz. cbn [Z.ltb Z.compare fst snd].
    apply in_use_free_intro; cbn [RLock._block RLock._owner RLock._count];
      try done; rewrite Hs; simpl; [done | lia].
  - eexists. split; [reflexivity|].
    rewrite (proj2 (Z.ltb_lt 0 (d - 1))) by lia.
    apply in_use_held_intro;
      cbn [RLock._block RLock.set_count RLock._owner RLock._count];
      try done; lia.
Qed.

Lemma release_when_not_owner o d
    (self : RLock.t (AtomicSemaphore.t Semaphore.t)) :
  in_use o d self ->
  o <> Some (getcurrent cx) ->
  RLock.release cx self =
    (Raised (RuntimeError "cannot release un-acquired lock"), self).
Proof.
  intros (Ho & _) Hne. apply release_by_other. by rewrite Ho.
Qed.

Lemma release_save_when_held a d
    (self : RLock.t (AtomicSemaphore.t Semaphore.t)) :
  in_use (Some a) d self ->
  exists self',
    RLock._release_save cx self = (Normal (d, Some a), self') /\
    in_use None 0 self'.
Proof.
  intros (Ho & Hd & Hpos & Hb & Hg & Hc)%in_use_held_elim.
  rewrite release_save_eq. cbn [sem_release AtomicSemaphore_api].
  destruct (atomic_release_unbounded cx (RLock._block self) Hg Hb)
    as (a' & -> & Hs & Hg').
  rewrite Ho, Hd. eexists. split; [reflexivity|].
  apply in_use_free_intro; cbn [RLock._block RLock._owner RLock._count snd];
    try done; rewrite Hs; simpl; [done | lia].
Qed.

Lemma acquire_restore_when_free a d
    (self : RLock.t (AtomicSemaphore.t Semaphore.t)) :
  in_use None 0 self ->
  0 < d ->
  exists self',
    RLock._acquire_restore cx (d, Some a) self = (Normal tt, self') /\
    in_use (Some a) d self'.
Proof.
  intros (Ho & Hd & Hb & Hg & Hc)%in_use_free_elim Hpos.
  rewrite acquire_restore_eq. cbn [sem_acquire AtomicSemaphore_api].
  destruct (atomic_acquire_free cx true None (RLock._block self) Hg)
    as (a' & -> & Hs & Hg'); [lia|].
  eexists. split; [reflexivity|].
  apply in_use_held_intro; cbn [RLock._block RLock._owner RLock._count];
    try done; rewrite Hs; simpl; [done | lia].
Qed.

Lemma new_lock_in_use :
  in_use None 0 (RLock.__init__ new_AtomicSemaphore).
Proof. apply in_use_free_intro; first [done | apply counted_init]. Qed.

End lock_in_use.

Section task_histories.
Variable cx : context.

Lemma owner_at_pos n : 0 < n -> owner_at cx n = Some (getcurrent cx).
Proof. intros Hn. unfold owner_at. by rewrite (proj2 (Z.ltb_lt 0 n)). Qed.

Lemma owner_at_zero : owner_at cx 0 = None.
Proof. done. Qed.

Lemma task_step (c : task_call) (n : Z)
    (self : RLock.t (AtomicSemaphore.t Semaphore.t)) :
  0 <= n ->
  in_use (owner_at cx n) n self ->
  is_blocked (fst (task_method cx c self)) = false /\
  0 <= unmatched n [c] /\
  in_use (owner_at cx (unmatched n [c])) (unmatched n [c])
    (snd (task_method cx c self)).
Proof.
  intros Hn Hin. destruct (decide (n = 0)) as [->|Hne].
  - rewrite owner_at_zero in Hin. destruct c as [blocking timeout|]; simpl.
    + destruct (acquire_when_free cx blocking timeout self Hin)
        as (self' & -> & Hin').
      rewrite owner_at_pos by lia.
      split; [done | split; [lia | exact Hin']].
    + unfold bind.
      rewrite (release_when_not_owner cx None 0 self Hin) by done.
      split; [done | split; [lia | exact Hin]].
  - rewrite owner_at_pos in Hin by lia.
    destruct c as [blocking timeout|]; simpl.
    + destruct (acquire_when_owner cx blocking timeout n self Hin)
        as (self' & -> & Hin').
      rewrite owner_at_pos by lia.
      split; [done | split; [lia | exact Hin']].
    + unfold bind.
      destruct (release_when_owner cx n self Hin) as (self' & -> & Hin').
      rewrite (proj2 (Z.ltb_lt 0 n)) by lia.
      split; [done | split; [lia | exact Hin']].
Qed.

Lemma unmatched_cons c cs n :
  unmatched n (c :: cs) = unmatched (unmatched n [c]) cs.
Proof. by destruct c. Qed.

Lemma task_history (cs : list task_call) :
  forall (n : Z) (self : RLock.t (AtomicSemaphore.t Semaphore.t)),
    0 <= n ->
    in_use (owner_at cx n) n self ->
    Forall (fun o => is_blocked o = false)
      (fst (run_calls (task_method cx) cs self)) /\
    in_use (owner_at cx (unmatched n cs)) (unmatched n cs)
      (snd (run_calls (task_method cx) cs self)).
Proof.
  induction cs as [|c cs IH]; intros n self Hn Hin.
  - by split.
  - rewrite unmatched_cons. cbn [run_calls].
    destruct (task_step c n self Hn Hin) as (Hb & Hn' & Hin').
    destruct (task_method cx c self) as [o self1]. cbn [fst snd] in *.
    destruct (IH _ self1 Hn' Hin') as (Hos & Hfin).
    destruct (run_calls (task_method cx) cs self1) as [os self2].
    cbn [fst snd] in *. split; [by constructor | done].
Qed.

End task_histories.

(** Whatever calls of [acquire] and [release] one task makes on a new lock,
    in any order and with any arguments, no call blocks, the depth recorded
    in [_count] is the number of acquires not yet matched by a release (a
    [release] at depth 0 raises and matches nothing), the lock is owned by
    the task exactly when that number is positive, which is also what
    [_is_owned] answers, and the semaphore's slot is taken exactly then. *)
Theorem rlock_depth_counts_unmatched_acquires (cx : context)
    (cs : list task_call) :
  let r := run_calls (task_method cx) cs (RLock.__init__ new_AtomicSemaphore) in
  Forall (fun o => is_blocked o = false) (fst r) /\
  RLock._count (snd r) = unmatched 0 cs /\
  RLock._owner (snd r) = owner_at cx (unmatched 0 cs) /\
  fst (RLock._is_owned cx (snd r)) =
    Normal (bool_decide (0 < unmatched 0 cs)) /\
  in_use (owner_at cx (unmatched 0 cs)) (unmatched 0 cs) (snd r).
Proof.
  cbn zeta.
  destruct (task_history cx cs 0 (RLock.__init__ new_AtomicSemaphore))
    as (Hos & Hin); [done | apply new_lock_in_use |].
  split; [done|].
  pose proof Hin as (Ho & Hd & _).
  split; [done|]. split; [done|]. split; [|done].
  unfold RLock._is_owned, bind, gets, ret. cbn [fst]. rewrite Ho.
  f_equal. unfold owner_at.
  destruct (0 <? unmatched 0 cs) eqn:E.
  - apply Z.ltb_lt in E. rewrite bool_decide_eq_true_2 by done.
    by rewrite bool_decide_eq_true_2.
  - apply Z.ltb_ge in E. rewrite bool_decide_eq_false_2 by done.
    rewrite bool_decide_eq_false_2; [done | lia].
Qed.



(** [with lock: body] on a lock over [Semaphore(1)] that the task holds [n]
    times, [n >= 0]: whether the body returns or raises, provided it leaves
    the lock at the depth [n + 1] at which it started, the statement ends
    as the body ends and the lock is back at depth [n], free when [n] is 0:
    [__exit__] releases on every exit path. *)
Theorem rlock_with_releases_on_every_exit {A : Type} (cx : context) (n : Z)
    (body : M (RLock.t (AtomicSemaphore.t Semaphore.t)) A)
    (self : RLock.t (AtomicSemaphore.t Semaphore.t)) :
  0 <= n ->
  in_use (owner_at cx n) n self ->
  (forall l,
      in_use (Some (getcurrent cx)) (n + 1) l ->
      is_blocked (fst (body l)) = false /\
      in_use (Some (getcurrent cx)) (n + 1) (snd (body l))) ->
  exists entered,
    snd (RLock.__enter__ cx self) = entered /\
    succeeded (fst (RLock.__enter__ cx self)) /\
    fst (with_statement (RLock.__enter__ cx) (RLock.__exit__ cx) body self) =
      fst (body entered) /\
    in_use (owner_at cx n) n
      (snd (with_statement (RLock.__enter__ cx) (RLock.__exit__ cx) body
              self)).
Proof.
  intros Hn Hin Hbody.
  assert (exists v entered,
             RLock.__enter__ cx self = (Normal v, entered) /\
             truthy v = true /\
             in_use (Some (getcurrent cx)) (n + 1) entered)
    as (v & entered & Henter & Hv & Hin1).
  { unfold RLock.__enter__. destruct (decide (n = 0)) as [->|Hne].
    - rewrite owner_at_zero in Hin.
      destruct (acquire_when_free cx true None self Hin) as (l & -> & Hl).
      by exists (VBool true), l.
    - rewrite owner_at_pos in Hin by lia.
      destruct (acquire_when_owner cx true None n self Hin) as (l & -> & Hl).
      by exists (VInt 1), l. }
  exists entered. rewrite Henter. cbn [fst snd].
  split; [done|]. split; [by exists v|].
  unfold with_statement, bind. rewrite Henter. unfold try_finally.
  destruct (Hbody entered Hin1) as (Hnb & Hin2).
  destruct (body entered) as [o l1]. cbn [fst snd] in *.
  unfold RLock.__exit__, bind.
  destruct (release_when_owner cx (n + 1) l1 Hin2) as (l2 & -> & Hin3).
  replace (n + 1 - 1) with n in Hin3 by lia.
  by destruct o.
Qed.

Lemma rlock_with_releases_on_every_exit_witness :
  fst (with_statement (RLock.__enter__ (Context 7 100))
         (RLock.__exit__ (Context 7 100)) (raise (OtherError "boom"))
         (RLock.__init__ new_AtomicSemaphore)) =
    Raised (A:=unit) (OtherError "boom") /\
  in_use None 0
    (snd (with_statement (RLock.__enter__ (Context 7 100))
            (RLock.__exit__ (Context 7 100))
            (raise (A:=unit) (OtherError "boom"))
            (RLock.__init__ new_AtomicSemaphore))).
Proof.
  destruct (rlock_with_releases_on_every_exit (Context 7 100) 0
              (raise (A:=unit) (OtherError "boom"))
              (RLock.__init__ new_AtomicSemaphore))
    as (entered & _ & _ & Hout & Hin).
  - done.
  - apply new_lock_in_use.
  - intros l Hl. by split.
  - split; [exact Hout | exact Hin].
Defined.

(** The way a condition variable uses the lock: a task that holds a lock
    over [Semaphore(1)] at depth [d] gives it up with [_release_save],
    another task acquires it (and is granted it) and releases it, and
    [_acquire_restore] of the saved pair puts the first task back as owner
    at depth [d], the slot of the semaphore taken again. *)
Theorem rlock_wait_protocol_restores (a b : context) (o d : Z)
    (self : RLock.t (AtomicSemaphore.t Semaphore.t)) :
  in_use (Some o) d self ->
  exists self',
    wait_protocol a b self = (Normal ((d, Some o), VBool true), self') /\
    in_use (Some o) d self'.
Proof.
  intros Hin. unfold wait_protocol, bind.
  pose proof (in_use_held_elim o d self Hin) as (_ & _ & Hpos & _).
  destruct (release_save_when_held a o d self Hin) as (l1 & -> & Hin1).
  destruct (acquire_when_free b true None l1 Hin1) as (l2 & -> & Hin2).
  destruct (release_when_owner b 1 l2 Hin2) as (l3 & -> & Hin3).
  destruct (acquire_restore_when_free a o d l3 Hin3 Hpos) as (l4 & -> & Hin4).
  by exists l4.
Qed.

Lemma rlock_wait_protocol_restores_witness :
  fst (wait_protocol (Context 7 100) (Context 8 200)
         (RLock.Make (new_AtomicSemaphore 0) (Some 100) 2)) =
    Normal ((2, Some 100), VBool true) /\
  exists self',
    wait_protocol (Context 7 100) (Context 8 200)
      (RLock.Make (new_AtomicSemaphore 0) (Some 100) 2) =
      (Normal ((2, Some 100), VBool true), self') /\
    in_use (Some 100) 2 self'.
Proof.
  split; [vm_compute; reflexivity|].
  refine (rlock_wait_protocol_restores (Context 7 100) (Context 8 200) 100 2
            (RLock.Make (new_AtomicSemaphore 0) (Some 100) 2) _).
  apply in_use_held_intro; first [done | apply counted_init].
Defined.

(** * The two bindings of [Semaphore] *)

Section bindings.
Context {S : Type} `{!SemaphoreBase S}.

Lemma atomic_sim {A} (cx : context) (m : method S A)
    (a : AtomicSemaphore.t S) :
  OwnedLock.counted (AtomicSemaphore._lock_lock a) ->
  exists a',
    AtomicSemaphore.with_lock cx (AtomicSemaphore.run cx m) a =
      (fst (run_super (super__wait cx) m (AtomicSemaphore.super a)), a') /\
    AtomicSemaphore.super a' =
      snd (run_super (super__wait cx) m (AtomicSemaphore.super a)) /\
    OwnedLock.counted (AtomicSemaphore._lock_lock a').
Proof.
  intros Hc.
  destruct (with_lock_idle cx m a Hc) as (g' & new & Heq & Hc' & _).
  eexists. split; [exact Heq|]. by split.
Qed.

Lemma bind_ret_map {W A A'} (m : M W A) (f : A -> A') (w : W) :
  bind m (fun a => ret (f a)) w = (outcome_map f (fst (m w)), snd (m w)).
Proof. unfold bind, ret. by destruct (m w) as [[a|e|] w']. Qed.

Lemma same_lock_intro (a : AtomicSemaphore.t S) o c :
  OwnedLock.counted (AtomicSemaphore._lock_lock a) ->
  same_lock (RLock.Make a o c) (RLock.Make (AtomicSemaphore.super a) o c).
Proof. intros Hc. by repeat split. Qed.

Lemma acquire_same (cx : context) blocking timeout
    (la : RLock.t (AtomicSemaphore.t S)) (lb : RLock.t S) :
  same_lock la lb ->
  fst (RLock.acquire cx blocking timeout la) =
    fst (@RLock.acquire S base_api cx blocking timeout lb) /\
  same_lock (snd (RLock.acquire cx blocking timeout la))
    (snd (@RLock.acquire S base_api cx blocking timeout lb)).
Proof.
  destruct la as [a oa ca], lb as [b ob cb].
  intros (Ho & Hc & Hs & Hg). simpl in Ho, Hc, Hs, Hg. subst ob cb b.
  destruct (decide (oa = Some (getcurrent cx))) as [Hown|Hown].
  - rewrite acquire_by_owner by done.
    rewrite (@acquire_by_owner S base_api) by done.
    split; [done | by apply same_lock_intro].
  - rewrite acquire_by_other by done.
    rewrite (@acquire_by_other S base_api) by done.
    cbn [RLock._block sem_acquire AtomicSemaphore_api base_api].
    destruct (atomic_sim cx (super_acquire blocking timeout) a Hg)
      as (a' & Heq & Hs' & Hg').
    unfold AtomicSemaphore.acquire, base_acquire in *. rewrite Heq.
    destruct (run_super (super__wait cx) (super_acquire blocking timeout)
                (AtomicSemaphore.super a)) as [[rc|e|] s'];
      cbn [fst snd] in *; subst s'.
    + split; [done|]. destruct (truthy rc); by apply same_lock_intro.
    + split; [done | by apply same_lock_intro].
    + split; [done | by apply same_lock_intro].
Qed.

Lemma release_same (cx : context)
    (la : RLock.t (AtomicSemaphore.t S)) (lb : RLock.t S) :
  same_lock la lb ->
  fst (RLock.release cx la) = fst (@RLock.release S base_api cx lb) /\
  same_lock (snd (RLock.release cx la))
    (snd (@RLock.release S base_api cx lb)).
Proof.
  destruct la as [a oa ca], lb as [b ob cb].
  intros (Ho & Hc & Hs & Hg). simpl in Ho, Hc, Hs, Hg. subst ob cb b.
  destruct (decide (oa = Some (getcurrent cx))) as [Hown|Hown].
  - rewrite release_by_owner by done.
    rewrite (@release_by_owner S base_api) by done.
    cbn [RLock._block RLock._count sem_release AtomicSemaphore_api base_api].
    case_bool_decide.
    + destruct (atomic_sim cx super_release a Hg) as (a' & Heq & Hs' & Hg').
      unfold AtomicSemaphore.release, base_release in *. rewrite Heq.
      cbn [fst snd]. rewrite <- Hs'.
      split; [done | by apply same_lock_intro].
    + split; [done | by apply same_lock_intro].
  - rewrite release_by_other by done.
    rewrite (@release_by_other S base_api) by done.
    split; [done | by apply same_lock_intro].
Qed.

Lemma release_save_same (cx : context)
    (la : RLock.t (AtomicSemaphore.t S)) (lb : RLock.t S) :
  same_lock la lb ->
  fst (RLock._release_save cx la) =
    fst (@RLock._release_save S base_api cx lb) /\
  same_lock (snd (RLock._release_save cx la))
    (snd (@RLock._release_save S base_api cx lb)).
Proof.
  destruct la as [a oa ca], lb as [b ob cb].
  intros (Ho & Hc & Hs & Hg). simpl in Ho, Hc, Hs, Hg. subst ob cb b.
  rewrite release_save_eq, (@release_save_eq S base_api).
  cbn [RLock._block RLock._count RLock._owner sem_release
       AtomicSemaphore_api base_api].
  destruct (atomic_sim cx super_release a Hg) as (a' & Heq & Hs' & Hg').
  unfold AtomicSemaphore.release, base_release in *. rewrite Heq.
  cbn [fst snd]. rewrite <- Hs'.
  split; [done | by apply same_lock_intro].
Qed.

Lemma acquire_restore_same (cx : context) count owner
    (la : RLock.t (AtomicSemaphore.t S)) (lb : RLock.t S) :
  same_lock la lb ->
  fst (RLock._acquire_restore cx (count, owner) la) =
    fst (@RLock._acquire_restore S base_api cx (count, owner) lb) /\
  same_lock (snd (RLock._acquire_restore cx (count, owner) la))
    (snd (@RLock._acquire_restore S base_api cx (count, owner) lb)).
Proof.
  destruct la as [a oa ca], lb as [b ob cb].
  intros (Ho & Hc & Hs & Hg). simpl in Ho, Hc, Hs, Hg. subst ob cb b.
  rewrite acquire_restore_eq, (@acquire_restore_eq S base_api).
  cbn [RLock._block sem_acquire AtomicSemaphore_api base_api].
  destruct (atomic_sim cx (super_acquire true None) a Hg)
    as (a' & Heq & Hs' & Hg').
  unfold AtomicSemaphore.acquire, base_acquire in *. rewrite Heq.
  destruct (run_super (super__wait cx) (super_acquire true None)
              (AtomicSemaphore.super a)) as [[rc|e|] s'];
    cbn [fst snd] in *; subst s';
    (split; [done | by apply same_lock_intro]).
Qed.

Lemma rlock_method_same (c : context * rlock_call)
    (la : RLock.t (AtomicSemaphore.t S)) (lb : RLock.t S) :
  same_lock la lb ->
  fst (rlock_method c la) = fst (@rlock_method S base_api c lb) /\
  same_lock (snd (rlock_method c la)) (snd (@rlock_method S base_api c lb)).
Proof.
  intros Hsame. destruct c as [cx [blocking timeout| | |count owner|]];
    unfold rlock_method; cbn [fst snd].
  - rewrite !bind_ret_map. cbn [fst snd].
    destruct (acquire_same cx blocking timeout la lb Hsame) as (-> & ?).
    done.
  - rewrite !bind_ret_map. cbn [fst snd].
    destruct (release_same cx la lb Hsame) as (-> & ?). done.
  - rewrite !bind_ret_map. cbn [fst snd].
    destruct (release_save_same cx la lb Hsame) as (-> & ?). done.
  - rewrite !bind_ret_map. cbn [fst snd].
    destruct (acquire_restore_same cx count owner la lb Hsame) as (-> & ?).
    done.
  - destruct Hsame as (Ho & Hrest).
    unfold RLock._is_owned, bind, gets, ret. cbn [fst snd]. rewrite Ho.
    split; [done|]. by split.
Qed.

End bindings.

(** The binding of [Semaphore] to [_AtomicSemaphore] makes no difference to
    a lock: for every base class, whatever methods of [RLock] are called,
    by whatever callers and in whatever order, a lock over
    [_AtomicSemaphore] and a lock over the base class that start with the
    same owner, depth and semaphore fields end every call the same way,
    with the same result or exception, and still show the same owner, depth
    and semaphore fields afterwards. *)
Theorem rlock_same_under_both_bindings {S : Type} `{!SemaphoreBase S}
    (cs : list (context * rlock_call))
    (la : RLock.t (AtomicSemaphore.t S)) (lb : RLock.t S) :
  same_lock la lb ->
  fst (run_calls rlock_method cs la) =
    fst (run_calls (@rlock_method S base_api) cs lb) /\
  same_lock (snd (run_calls rlock_method cs la))
    (snd (run_calls (@rlock_method S base_api) cs lb)).
Proof.
  revert la lb. induction cs as [|c cs IH]; intros la lb Hsame.
  - by split.
  - cbn [run_calls].
    destruct (rlock_method_same c la lb Hsame) as (Hout & Hsame').
    destruct (rlock_method c la) as [oa la'].
    destruct (@rlock_method S base_api c lb) as [ob lb'].
    cbn [fst snd] in *. subst ob.
    destruct (IH la' lb' Hsame') as (Hos & Hfin).
    destruct (run_calls rlock_method cs la') as [osa la''].
    destruct (run_calls (@rlock_method S base_api) cs lb') as [osb lb''].
    cbn [fst snd] in *. by subst osb.
Qed.

Lemma rlock_same_under_both_bindings_witness :
  fst (run_calls rlock_method
         [(Context 7 100, Call_acquire true None);
          (Context 8 200, Call_acquire false None);
          (Context 8 200, Call_release);
          (Context 7 100, Call_release_save);
          (Context 7 100, Call_is_owned)]
         (RLock.__init__ new_AtomicSemaphore)) =
    [Normal (Result_value (VBool true));
     Normal (Result_value (VBool false));
     Raised (RuntimeError "cannot release un-acquired lock");
     Normal (Result_saved 1 (Some 100));
     Normal (Result_bool false)] /\
  fst (run_calls rlock_method
         [(Context 7 100, Call_acquire true None);
          (Context 8 200, Call_acquire false None);
          (Context 8 200, Call_release);
          (Context 7 100, Call_release_save);
          (Context 7 100, Call_is_owned)]
         (RLock.__init__ new_AtomicSemaphore)) =
    fst (run_calls (@rlock_method Semaphore.t base_api)
           [(Context 7 100, Call_acquire true None);
            (Context 8 200, Call_acquire false None);
            (Context 8 200, Call_release);
            (Context 7 100, Call_release_save);
            (Context 7 100, Call_is_owned)]
           (RLock.__init__ new_Semaphore)).
Proof.
  split; [vm_compute; reflexivity|].
  refine (proj1 (rlock_same_under_both_bindings _
                   (RLock.__init__ new_AtomicSemaphore)
                   (RLock.__init__ new_Semaphore) _)).
  repeat split. apply counted_init.
Defined.

(** * The lock when a call on its semaphore does not return a value *)

(** Over any semaphore, when a call on it ends with [o], an exception or no
    return at all: [acquire] by a task that is not the owner and
    [_acquire_restore] end the same way with the owner and the depth
    untouched, while [release] at depth 1 and [_release_save], which clear
    the owner and the depth before they call the semaphore's [release],
    end the same way and leave the lock free all the same. *)
Theorem rlock_when_semaphore_fails {B : Type} `{!SemaphoreAPI B}
    (cx : context) (blocking : bool) (timeout : option Z)
    (saved : Z * option Z) (self : RLock.t B) (o : outcome value) (b' : B) :
  (forall v, o <> Normal v) ->
  (sem_acquire cx blocking timeout (RLock._block self) = (o, b') ->
   RLock._owner self <> Some (getcurrent cx) ->
   RLock.acquire cx blocking timeout self = (o, RLock.set_block b' self)) /\
  (sem_acquire cx true None (RLock._block self) = (o, b') ->
   RLock._acquire_restore cx saved self =
     (discard o, RLock.set_block b' self)) /\
  (sem_release cx (RLock._block self) = (o, b') ->
   RLock._owner self = Some (getcurrent cx) ->
   RLock._count self = 1 ->
   RLock.release cx self = (discard o, RLock.Make b' None 0)) /\
  (sem_release cx (RLock._block self) = (o, b') ->
   RLock._release_save cx self =
     (outcome_map (fun _ => (RLock._count self, RLock._owner self)) o,
      RLock.Make b' None 0)).
Proof.
  intros Hfail. split; [|split; [|split]].
  - intros Hsem Hown. rewrite acquire_by_other by done. rewrite Hsem.
    destruct o as [v|e|]; [by destruct (Hfail v) | done | done].
  - intros Hsem. destruct saved as [count owner].
    rewrite acquire_restore_eq, Hsem.
    destruct o as [v|e|]; [by destruct (Hfail v) | done | done].
  - intros Hsem Hown Hc. rewrite release_by_owner by done.
    rewrite Hc, Hsem. by rewrite bool_decide_eq_true_2.
  - intros Hsem. rewrite release_save_eq, Hsem. by destruct o.
Qed.

Lemma rlock_when_semaphore_fails_witness :
  RLock.acquire (Context 8 200) true None
    (RLock.Make (new_Semaphore 0) (Some 100) 2) =
    (Blocked, RLock.Make (Semaphore.Make 0 None [200]) (Some 100) 2) /\
  RLock.release (Context 7 100)
    (RLock.Make (Semaphore.Make 1 (Some 1) []) (Some 100) 1) =
    (Raised (OtherError "CapacityExceeded"),
     RLock.Make (Semaphore.Make 1 (Some 1) []) None 0).
Proof.
  split.
  - refine (proj1 (rlock_when_semaphore_fails (Context 8 200) true None
                     (0, None) (RLock.Make (new_Semaphore 0) (Some 100) 2)
                     Blocked (Semaphore.Make 0 None [200]) _) eq_refl _);
      discriminate.
  - refine (proj1 (proj2 (proj2
              (rlock_when_semaphore_fails (Context 7 100) true None
                 (0, None)
                 (RLock.Make (Semaphore.Make 1 (Some 1) []) (Some 100) 1)
                 (Raised (OtherError "CapacityExceeded"))
                 (Semaphore.Make 1 (Some 1) []) _))) eq_refl eq_refl eq_refl).
    discriminate.
Defined.
